(** * Gomoku (wuziqi): the game-state engine of [src/components/App.jsx]

    A shallow embedding of the state held by the [App] component and of its
    handlers ([initializeBoard], [checkWin], [checkDraw], [handleCellClick],
    [handleUndo], [handlePauseResume], [handleNewGame]), followed by the
    properties of the engine.

    Conventions of the embedding.
    - JS numbers that index the board are integers, modelled in [Z].
    - A JS array is a [list]; reading past its ends gives [undefined]
      ([None]); reading a property of [undefined] throws a TypeError
      ([Throw]).
    - The handlers are closures over one render's state: every read of
      [board], [currentPlayer], [gameStatus], [moveHistory] inside a handler
      sees the value from before the handler ran, whatever setters the
      handler has already called.  A handler therefore takes the state [s]
      of the render and returns the state made of the setters it called. *)

From Stdlib Require Import ZArith Bool String DecimalString List Lia.
Import ListNotations.
Local Open Scope Z_scope.

(** ** Constants *)

Definition BOARD_SIZE : Z := 15.

Inductive GAME_STATUS : Type :=
| PLAYING | PAUSED | BLACK_WIN | WHITE_WIN | DRAW.

Inductive PIECE_TYPE : Type :=
| EMPTY | BLACK | WHITE.

Definition status_eqb (a b : GAME_STATUS) : bool :=
  match a, b with
  | PLAYING, PLAYING | PAUSED, PAUSED | BLACK_WIN, BLACK_WIN
  | WHITE_WIN, WHITE_WIN | DRAW, DRAW => true
  | _, _ => false
  end.

Definition piece_eqb (a b : PIECE_TYPE) : bool :=
  match a, b with
  | EMPTY, EMPTY | BLACK, BLACK | WHITE, WHITE => true
  | _, _ => false
  end.

(** The three notices the handlers put in [errorMessage]. *)
Definition MSG_NOT_PLAYING : string := "游戏已结束，请开始新游戏".
Definition MSG_OCCUPIED : string := "该位置已有棋子".
Definition MSG_NOTHING_TO_UNDO : string := "没有可悔的棋".

(** ** Evaluation that may throw *)

Inductive js (A : Type) : Type :=
| Ret (a : A)
| Throw.
Arguments Ret {A} a.
Arguments Throw {A}.

Definition bind {A B : Type} (m : js A) (k : A -> js B) : js B :=
  match m with
  | Ret a => k a
  | Throw => Throw
  end.

Notation "x <- m ;; k" := (bind m (fun x => k))
  (at level 61, m at next level, right associativity).

(** ** The board: an array of rows *)

Definition Board : Type := list (list PIECE_TYPE).

(** [l[i]] for an integer [i]: [None] is [undefined]. *)
Definition index {A : Type} (l : list A) (i : Z) : option A :=
  if 0 <=? i then nth_error l (Z.to_nat i) else None.

(** [board[row][col]]: a TypeError when [board[row]] is undefined. *)
Definition board_get (b : Board) (row col : Z) : js (option PIECE_TYPE) :=
  match index b row with
  | None => Throw
  | Some r => Ret (index r col)
  end.

(** [v === p] for a cell value [v] that may be [undefined]. *)
Definition strict_eq (v : option PIECE_TYPE) (p : PIECE_TYPE) : bool :=
  match v with
  | Some q => piece_eqb q p
  | None => false
  end.

(** The outcome of the assignment [b[row][col] = v]. *)
Inductive written : Type :=
| Stored (b : Board)      (* the cell existed and now holds [v] *)
| RowUndefined            (* [b[row]] is undefined: TypeError *)
| OutsideRow.             (* [b[row]] exists, [col] is not one of its
                             indices: JS would grow the row or add a
                             property; such boards are not followed *)

Fixpoint list_set {A : Type} (l : list A) (n : nat) (v : A) : list A :=
  match l, n with
  | [], _ => []
  | _ :: t, O => v :: t
  | h :: t, S n' => h :: list_set t n' v
  end.

Definition board_set (b : Board) (row col : Z) (v : PIECE_TYPE) : written :=
  match index b row with
  | None => RowUndefined
  | Some r =>
      match index r col with
      | None => OutsideRow
      | Some _ =>
          Stored (list_set b (Z.to_nat row) (list_set r (Z.to_nat col) v))
      end
  end.

(** [Array(BOARD_SIZE).fill(null).map(() => Array(BOARD_SIZE).fill(EMPTY))] *)
Definition empty_board : Board :=
  repeat (repeat EMPTY (Z.to_nat BOARD_SIZE)) (Z.to_nat BOARD_SIZE).

(** ** The component state *)

Record Move : Type := mkMove { row : Z; col : Z; player : PIECE_TYPE }.

Record Modal : Type := mkModal { title : string; message : string }.

Record State : Type := mkState {
  board : Board;
  currentPlayer : PIECE_TYPE;
  gameStatus : GAME_STATUS;
  moveHistory : list Move;
  lastMove : option (Z * Z);
  showModal : bool;
  modalContent : Modal;
  errorMessage : string
}.

Definition setBoard (s : State) (b : Board) : State :=
  mkState b (currentPlayer s) (gameStatus s) (moveHistory s) (lastMove s)
          (showModal s) (modalContent s) (errorMessage s).
Definition setCurrentPlayer (s : State) (p : PIECE_TYPE) : State :=
  mkState (board s) p (gameStatus s) (moveHistory s) (lastMove s)
          (showModal s) (modalContent s) (errorMessage s).
Definition setGameStatus (s : State) (g : GAME_STATUS) : State :=
  mkState (board s) (currentPlayer s) g (moveHistory s) (lastMove s)
          (showModal s) (modalContent s) (errorMessage s).
Definition setMoveHistory (s : State) (h : list Move) : State :=
  mkState (board s) (currentPlayer s) (gameStatus s) h (lastMove s)
          (showModal s) (modalContent s) (errorMessage s).
Definition setLastMove (s : State) (l : option (Z * Z)) : State :=
  mkState (board s) (currentPlayer s) (gameStatus s) (moveHistory s) l
          (showModal s) (modalContent s) (errorMessage s).
Definition setShowModal (s : State) (m : bool) : State :=
  mkState (board s) (currentPlayer s) (gameStatus s) (moveHistory s)
          (lastMove s) m (modalContent s) (errorMessage s).
Definition setModalContent (s : State) (m : Modal) : State :=
  mkState (board s) (currentPlayer s) (gameStatus s) (moveHistory s)
          (lastMove s) (showModal s) m (errorMessage s).
Definition setErrorMessage (s : State) (e : string) : State :=
  mkState (board s) (currentPlayer s) (gameStatus s) (moveHistory s)
          (lastMove s) (showModal s) (modalContent s) e.

(** What a handler leaves behind. *)
Inductive result : Type :=
| Returned (s : State)   (* ran to its end; [s] holds the setters' values *)
| Threw (s : State)      (* a TypeError; [s] holds the setters called so far *)
| OffGrid.               (* wrote outside a row, see [OutsideRow] *)

(** ** initializeBoard *)

Definition initializeBoard (s : State) : State :=
  let s := setBoard s empty_board in
  let s := setCurrentPlayer s BLACK in
  let s := setGameStatus s PLAYING in
  let s := setMoveHistory s [] in
  let s := setLastMove s None in
  setErrorMessage s EmptyString.

(** The state [initializeBoard] builds from the [useState] defaults: the
    start of a game, and of [reachable].  The state of the first render
    itself, from before any initialisation, is [first_render] below. *)
Definition mounted : State :=
  initializeBoard (mkState [] BLACK PLAYING [] None false (mkModal EmptyString EmptyString) EmptyString).

(** ** checkWin *)

Definition directions : list (Z * Z) := [(0, 1); (1, 0); (1, 1); (1, -1)].

(** [newRow >= 0 && newRow < BOARD_SIZE && newCol >= 0 &&
     newCol < BOARD_SIZE && board[newRow][newCol] === player] *)
Definition in_grid (r c : Z) : bool :=
  (0 <=? r) && (r <? BOARD_SIZE) && (0 <=? c) && (c <? BOARD_SIZE).

Definition same_stone (b : Board) (newRow newCol : Z) (player : PIECE_TYPE)
  : js bool :=
  if in_grid newRow newCol
  then v <- board_get b newRow newCol ;; Ret (strict_eq v player)
  else Ret false.

(** [for (let i = 1; i < 5; i++)]: the values [i] takes. *)
Definition steps : list Z := [1; 2; 3; 4].

(** One of the two inner loops: [count++] while the cell at step [i]
    matches, [break] at the first that does not. *)
Fixpoint scan (cell : Z -> js bool) (todo : list Z) (count : Z) : js Z :=
  match todo with
  | [] => Ret count
  | i :: rest =>
      t <- cell i ;;
      if t then scan cell rest (count + 1) else Ret count
  end.

Fixpoint checkWin_from (b : Board) (row col : Z) (player : PIECE_TYPE)
         (dirs : list (Z * Z)) : js bool :=
  match dirs with
  | [] => Ret false
  | (dx, dy) :: rest =>
      count <- scan (fun i => same_stone b (row + i * dx) (col + i * dy) player)
                    steps 1 ;;
      count <- scan (fun i => same_stone b (row - i * dx) (col - i * dy) player)
                    steps count ;;
      if count >=? 5 then Ret true else checkWin_from b row col player rest
  end.

Definition checkWin (b : Board) (row col : Z) (player : PIECE_TYPE) : js bool :=
  checkWin_from b row col player directions.

(** ** checkDraw *)

(** [0, 1, ..., BOARD_SIZE - 1] *)
Definition indices : list Z := map Z.of_nat (seq 0 (Z.to_nat BOARD_SIZE)).

(** The inner loop over [j]: [Ret true] when it found an EMPTY cell. *)
Fixpoint row_has_empty (b : Board) (i : Z) (cols : list Z) : js bool :=
  match cols with
  | [] => Ret false
  | j :: rest =>
      v <- board_get b i j ;;
      if strict_eq v EMPTY then Ret true else row_has_empty b i rest
  end.

Fixpoint checkDraw_rows (b : Board) (rows : list Z) : js bool :=
  match rows with
  | [] => Ret true
  | i :: rest =>
      e <- row_has_empty b i indices ;;
      if e then Ret false else checkDraw_rows b rest
  end.

Definition checkDraw (b : Board) : js bool := checkDraw_rows b indices.

(** ** handleCellClick *)

Definition other (p : PIECE_TYPE) : PIECE_TYPE :=
  if piece_eqb p BLACK then WHITE else BLACK.

Definition handleCellClick (s : State) (row col : Z) : result :=
  if negb (status_eqb (gameStatus s) PLAYING) then
    Returned (setErrorMessage s MSG_NOT_PLAYING)
  else
    match board_get (board s) row col with
    | Throw => Threw s
    | Ret v =>
        if negb (strict_eq v EMPTY) then
          Returned (setErrorMessage s MSG_OCCUPIED)
        else
          match board_set (board s) row col (currentPlayer s) with
          | RowUndefined => Threw s
          | OutsideRow => OffGrid
          | Stored newBoard =>
              let s1 := setBoard s newBoard in
              let newMoveHistory :=
                moveHistory s ++ [mkMove row col (currentPlayer s)] in
              let s2 := setMoveHistory s1 newMoveHistory in
              let s3 := setLastMove s2 (Some (row, col)) in
              (* checkWin and checkDraw close over this render's board *)
              match checkWin (board s) row col (currentPlayer s) with
              | Throw => Threw s3
              | Ret true =>
                  let winnerStatus :=
                    if piece_eqb (currentPlayer s) BLACK
                    then BLACK_WIN else WHITE_WIN in
                  let s4 := setGameStatus s3 winnerStatus in
                  let s5 :=
                    setModalContent s4
                      (mkModal "游戏结束"
                         (if piece_eqb (currentPlayer s) BLACK
                          then "黑方获胜！" else "白方获胜！")) in
                  Returned (setShowModal s5 true)
              | Ret false =>
                  match checkDraw (board s) with
                  | Throw => Threw s3
                  | Ret true =>
                      let s4 := setGameStatus s3 DRAW in
                      let s5 :=
                        setModalContent s4 (mkModal "游戏结束" "平局！") in
                      Returned (setShowModal s5 true)
                  | Ret false =>
                      Returned (setCurrentPlayer s3 (other (currentPlayer s)))
                  end
              end
          end
    end.

(** ** handleUndo *)

(** [newMoveHistory.forEach(move => newBoard[move.row][move.col] = move.player)] *)
Fixpoint replay (ms : list Move) (newBoard : Board) : written :=
  match ms with
  | [] => Stored newBoard
  | move :: rest =>
      match board_set newBoard (row move) (col move) (player move) with
      | Stored b' => replay rest b'
      | RowUndefined => RowUndefined
      | OutsideRow => OutsideRow
      end
  end.

(** [l[l.length - 1]] *)
Definition last_opt {A : Type} (l : list A) : option A :=
  match rev l with
  | [] => None
  | x :: _ => Some x
  end.

Definition handleUndo (s : State) : result :=
  match last_opt (moveHistory s) with
  | None => Returned (setErrorMessage s MSG_NOTHING_TO_UNDO)
  | Some undone =>
      let newMoveHistory := removelast (moveHistory s) in
      let s1 := setMoveHistory s newMoveHistory in
      match replay newMoveHistory empty_board with
      | RowUndefined => Threw s1
      | OutsideRow => OffGrid
      | Stored newBoard =>
          let s2 := setBoard s1 newBoard in
          let s3 :=
            setLastMove s2
              (match last_opt newMoveHistory with
               | Some last => Some (row last, col last)
               | None => None
               end) in
          let lastPlayer := player undone in
          let s4 := setCurrentPlayer s3 lastPlayer in
          let s5 := setGameStatus s4 PLAYING in
          Returned (setShowModal s5 false)
      end
  end.

(** ** handlePauseResume, handleNewGame *)

Definition handlePauseResume (s : State) : State :=
  if status_eqb (gameStatus s) PLAYING then setGameStatus s PAUSED
  else if status_eqb (gameStatus s) PAUSED then setGameStatus s PLAYING
  else s.

Definition handleNewGame (s : State) : State :=
  setShowModal (initializeBoard s) false.

(** The two remaining callbacks that write the state: the modal's close
    button and the timer that clears the notice. *)
Definition closeModal (s : State) : State := setShowModal s false.
Definition clearErrorMessage (s : State) : State := setErrorMessage s EmptyString.

(** ** Reachable states *)

Inductive event : Type :=
| CellClick (row col : Z)
| Undo
| PauseResume
| NewGame
| CloseModal
| ClearError.

Definition dispatch (s : State) (e : event) : result :=
  match e with
  | CellClick row col => handleCellClick s row col
  | Undo => handleUndo s
  | PauseResume => Returned (handlePauseResume s)
  | NewGame => Returned (handleNewGame s)
  | CloseModal => Returned (closeModal s)
  | ClearError => Returned (clearErrorMessage s)
  end.

(** The state React commits after a handler: the setters it called. *)
Definition committed (r : result) : option State :=
  match r with
  | Returned s => Some s
  | Threw s => Some s
  | OffGrid => None
  end.

Inductive reachable : State -> Prop :=
| reach_mounted : reachable mounted
| reach_step s e s' :
    reachable s -> committed (dispatch s e) = Some s' -> reachable s'.

(** Running a list of events; [None] if a handler leaves the model. *)
Fixpoint run (s : State) (es : list event) : option State :=
  match es with
  | [] => Some s
  | e :: rest =>
      match committed (dispatch s e) with
      | Some s' => run s' rest
      | None => None
      end
  end.

(** ** Vocabulary of the properties *)

(** A board of the shape [initializeBoard] builds: 15 rows of 15 cells. *)
Definition grid_shaped (b : Board) : Prop :=
  List.length b = Z.to_nat BOARD_SIZE /\
  Forall (fun r => List.length r = Z.to_nat BOARD_SIZE) b.

Definition on_grid (m : Move) : Prop := in_grid (row m) (col m) = true.

(** The value of [b[r][c]] when nothing throws. *)
Definition cell (b : Board) (r c : Z) : option PIECE_TYPE :=
  match index b r with
  | Some rw => index rw c
  | None => None
  end.

(** The game part of the state: everything but the notice and the modal. *)
Definition same_game (s s' : State) : Prop :=
  board s' = board s /\ moveHistory s' = moveHistory s /\
  gameStatus s' = gameStatus s /\ currentPlayer s' = currentPlayer s /\
  lastMove s' = lastMove s.

(** Counting cells. *)
Definition count_cells (f : PIECE_TYPE -> bool) (b : Board) : nat :=
  list_sum (map (fun r => List.length (filter f r)) b).

Definition b2n (t : bool) : nat := if t then 1%nat else 0%nat.

Definition occupied (b : Board) : nat :=
  count_cells (fun q => negb (piece_eqb q EMPTY)) b.

Definition stones (p : PIECE_TYPE) (b : Board) : nat :=
  count_cells (fun q => piece_eqb q p) b.

(** Whose move the [n]-th one is, counting from 0. *)
Definition turn (n : nat) : PIECE_TYPE := if Nat.even n then BLACK else WHITE.

(** Histories that [handleCellClick] can have recorded: each move went to a
    cell that was EMPTY on the board of the moves before it, and the colours
    alternate from BLACK. *)
Inductive legal_history : list Move -> Board -> Prop :=
| legal_nil : legal_history [] empty_board
| legal_snoc h b m b' :
    legal_history h b ->
    board_get b (row m) (col m) = Ret (Some EMPTY) ->
    player m = turn (List.length h) ->
    board_set b (row m) (col m) (player m) = Stored b' ->
    legal_history (h ++ [m]) b'.

Definition terminal (g : GAME_STATUS) : bool :=
  match g with
  | PLAYING | PAUSED => false
  | BLACK_WIN | WHITE_WIN | DRAW => true
  end.

(** The invariant of the reachable states. *)
Definition consistent (s : State) : Prop :=
  grid_shaped (board s) /\
  legal_history (moveHistory s) (board s) /\
  gameStatus s <> DRAW /\
  if terminal (gameStatus s)
  then exists m, last_opt (moveHistory s) = Some m /\ currentPlayer s = player m
  else currentPlayer s = turn (List.length (moveHistory s)).

(** *** Five in a line, in the words of the rules *)

(** The cells of the 15x15 board. *)
Definition on_board (r c : Z) : Prop := 0 <= r < 15 /\ 0 <= c < 15.

(** A stone of [p] stands on [(r, c)]: on the board, and the cell holds [p]. *)
Definition stone_at (b : Board) (r c : Z) (p : PIECE_TYPE) : Prop :=
  on_board r c /\ cell b r c = Some p.

(** The four orientations of a line, each with the step (in rows and
    columns) that follows it: along a row, along a column, and along the
    two diagonals. *)
Inductive orientation : Type :=
| Horizontal | Vertical | Diagonal | AntiDiagonal.

Definition along (o : orientation) : Z * Z :=
  match o with
  | Horizontal => (0, 1)
  | Vertical => (1, 0)
  | Diagonal => (1, 1)
  | AntiDiagonal => (1, -1)
  end.

(** [n] consecutive cells satisfy [P] from step 1 on, and the next does not:
    the scan stops at the first cell that does not match or is off the
    grid. *)
Definition run_length (P : Z -> Prop) (n : Z) : Prop :=
  0 <= n /\ (forall i, 1 <= i <= n -> P i) /\ ~ P (n + 1).

(** The count of an orientation: the placed stone, plus the runs on both
    sides of it. *)
Definition line_count (b : Board) (row col dx dy : Z) (p : PIECE_TYPE)
           (k : Z) : Prop :=
  exists fwd bwd,
    run_length (fun i => stone_at b (row + i * dx) (col + i * dy) p) fwd /\
    run_length (fun i => stone_at b (row - i * dx) (col - i * dy) p) bwd /\
    k = 1 + fwd + bwd.

Definition five_through (b : Board) (row col : Z) (p : PIECE_TYPE) : Prop :=
  exists (o : orientation) (k : Z),
    line_count b row col (fst (along o)) (snd (along o)) p k /\ 5 <= k.

(** *** The scan without the error plumbing *)

Definition stoneb (b : Board) (r c : Z) (p : PIECE_TYPE) : bool :=
  in_grid r c && strict_eq (cell b r c) p.

(** The length of the longest prefix of [l] on which [f] holds. *)
Fixpoint lead (f : Z -> bool) (l : list Z) : Z :=
  match l with
  | [] => 0
  | i :: rest => if f i then 1 + lead f rest else 0
  end.

Definition line_wins (b : Board) (row col : Z) (p : PIECE_TYPE)
           (d : Z * Z) : bool :=
  let (dx, dy) := d in
  5 <=? 1 + lead (fun i => stoneb b (row + i * dx) (col + i * dy) p) steps
          + lead (fun i => stoneb b (row - i * dx) (col - i * dy) p) steps.

(** *** A game that fills the board without five in a line *)

(** Pairs of columns alternate, and every row is the one above shifted by
    two: no line holds more than two stones of a colour in a row. *)
Definition colour (r c : Z) : PIECE_TYPE :=
  if (c + 2 * r) mod 4 <? 2 then BLACK else WHITE.

Definition cells_of (p : PIECE_TYPE) : list (Z * Z) :=
  filter (fun rc => piece_eqb (colour (fst rc) (snd rc)) p)
         (list_prod indices indices).

Fixpoint interleave {A : Type} (l1 l2 : list A) : list A :=
  match l1, l2 with
  | x :: t1, y :: t2 => x :: y :: interleave t1 t2
  | [], _ => l2
  | _, [] => l1
  end.

(** 113 BLACK and 112 WHITE clicks in turn, 225 in all. *)
Definition full_game : list event :=
  map (fun rc => CellClick (fst rc) (snd rc))
      (interleave (cells_of BLACK) (cells_of WHITE)).

(** *** Some states of short games *)

Definition after (es : list event) : State :=
  match run mounted es with
  | Some s => s
  | None => mounted
  end.

(** BLACK on (7,7), then the pause button. *)
Definition paused_with_stone : State := after [CellClick 7 7; PauseResume].

(** BLACK wins on the row 7, with WHITE answering on the row 0. *)
Definition black_five : list event :=
  [CellClick 7 3; CellClick 0 0; CellClick 7 4; CellClick 0 1;
   CellClick 7 5; CellClick 0 2; CellClick 7 6; CellClick 0 3;
   CellClick 7 7].

(** ** The view

    What the render reads from the state and the events it wires to the
    handlers.  A rendered cell is kept as its key, its click handler, the
    class of the stone drawn on it (if any) and whether it carries the
    last-move marker; its width and height are the constant [CELL_SIZE]. *)

(** A JS integer in a template string. *)
Definition string_of_Z (n : Z) : string := NilZero.string_of_int (Z.to_int n).

Definition getGameStatusText (s : State) : string :=
  match gameStatus s with
  | PLAYING => "游戏进行中"
  | PAUSED => "游戏已暂停"
  | BLACK_WIN => "黑方获胜"
  | WHITE_WIN => "白方获胜"
  | DRAW => "平局"
  end.

Record CellView : Type := mkCellView {
  key : string;
  onClick : event;
  piece : option string;
  isLastMove : bool
}.

(** The element [renderCells] pushes for the cell (row, col), given the
    value [pieceType] read from the board. *)
Definition cellElement (s : State) (pieceType : option PIECE_TYPE)
           (row col : Z) : CellView :=
  mkCellView
    ("cell-" ++ string_of_Z row ++ "-" ++ string_of_Z col)%string
    (CellClick row col)
    (if negb (strict_eq pieceType EMPTY)
     then Some (if strict_eq pieceType BLACK
                then "piece black"%string else "piece white"%string)
     else None)
    (match lastMove s with
     | Some (r, c) => (r =? row) && (c =? col)
     | None => false
     end).

(** The body of the two loops of [renderCells]. *)
Definition cellView (s : State) (row col : Z) : js CellView :=
  pieceType <- board_get (board s) row col ;;
  Ret (cellElement s pieceType row col).

Fixpoint renderCells_cols (s : State) (row : Z) (cols : list Z)
         (cells : list CellView) : js (list CellView) :=
  match cols with
  | [] => Ret cells
  | col :: rest =>
      v <- cellView s row col ;;
      renderCells_cols s row rest (cells ++ [v])
  end.

Fixpoint renderCells_rows (s : State) (rows : list Z)
         (cells : list CellView) : js (list CellView) :=
  match rows with
  | [] => Ret cells
  | row :: rest =>
      cells' <- renderCells_cols s row indices cells ;;
      renderCells_rows s rest cells'
  end.

Definition renderCells (s : State) : js (list CellView) :=
  renderCells_rows s indices [].

(** The [disabled] attributes of the undo and pause buttons. *)
Definition undoDisabled (s : State) : bool :=
  (List.length (moveHistory s) =? 0)%nat || status_eqb (gameStatus s) PAUSED.

Definition pauseDisabled (s : State) : bool :=
  negb (status_eqb (gameStatus s) PLAYING) &&
  negb (status_eqb (gameStatus s) PAUSED).

(** The events the view of [s] can send: a click on a rendered cell, a
    button that is not disabled, the buttons of the modal when it is shown,
    and the timers of the notices. *)
Definition emits (s : State) (e : event) : Prop :=
  match e with
  | CellClick _ _ =>
      exists cells, renderCells s = Ret cells /\ In e (map onClick cells)
  | Undo => undoDisabled s = false
  | PauseResume => pauseDisabled s = false
  | NewGame => True
  | CloseModal => showModal s = true
  | ClearError => True
  end.

(** ** More vocabulary *)

Definition spot (m : Move) : Z * Z := (row m, col m).

(** [currentPlayer === BLACK ? BLACK_WIN : WHITE_WIN] *)
Definition win_status (p : PIECE_TYPE) : GAME_STATUS :=
  if piece_eqb p BLACK then BLACK_WIN else WHITE_WIN.

(** Five stones of [p] in a row, from (r, c) on in the direction (dx, dy). *)
Definition five_in_line (b : Board) (p : PIECE_TYPE) (r c dx dy : Z) : Prop :=
  forall i, 0 <= i < 5 -> stone_at b (r + i * dx) (c + i * dy) p.

(** The colour of the last move of [h] that went to (r, c). *)
Fixpoint played_at (h : list Move) (r c : Z) : option PIECE_TYPE :=
  match h with
  | [] => None
  | m :: rest =>
      match played_at rest r c with
      | Some p => Some p
      | None =>
          if (row m =? r) && (col m =? c) then Some (player m) else None
      end
  end.

(** Histories in which no move made five: [handleCellClick] saw [checkWin]
    answer false each time. *)
Inductive calm : list Move -> Board -> Prop :=
| calm_nil : calm [] empty_board
| calm_snoc h b m b' :
    calm h b ->
    board_get b (row m) (col m) = Ret (Some EMPTY) ->
    player m = turn (List.length h) ->
    board_set b (row m) (col m) (player m) = Stored b' ->
    checkWin b (row m) (col m) (player m) = Ret false ->
    calm (h ++ [m]) b'.

Definition GAME_OVER : string := "游戏结束".

(** What holds of the last move, the modal and the status besides
    [consistent]. *)
Definition settled (s : State) : Prop :=
  lastMove s = option_map spot (last_opt (moveHistory s)) /\
  (showModal s = true ->
   terminal (gameStatus s) = true /\
   modalContent s =
     mkModal GAME_OVER
             (if status_eqb (gameStatus s) BLACK_WIN
              then "黑方获胜！"%string else "白方获胜！"%string)) /\
  if terminal (gameStatus s)
  then exists h b m,
      moveHistory s = h ++ [m] /\ calm h b /\
      board_get b (row m) (col m) = Ret (Some EMPTY) /\
      player m = turn (List.length h) /\
      board_set b (row m) (col m) (player m) = Stored (board s) /\
      checkWin b (row m) (col m) (player m) = Ret true /\
      gameStatus s = win_status (player m)
  else calm (moveHistory s) (board s).

(** The cells of the grid, row by row: the order of the two loops. *)
Definition grid_cells : list (Z * Z) :=
  flat_map (fun r => map (fun c => (r, c)) indices) indices.

(** What [renderCells] returns on a board where no read throws. *)
Definition cellsOf (s : State) : list CellView :=
  map (fun rc => cellElement s (cell (board s) (fst rc) (snd rc))
                             (fst rc) (snd rc))
      grid_cells.

Definition stone_class (p : PIECE_TYPE) : string :=
  if piece_eqb p BLACK then "piece black" else "piece white".

Definition hasPiece (v : CellView) : bool :=
  match piece v with
  | Some _ => true
  | None => false
  end.

(** A list without repetitions, tested with a boolean equality. *)
Fixpoint distinctb {A : Type} (eqb : A -> A -> bool) (l : list A) : bool :=
  match l with
  | [] => true
  | x :: t => negb (existsb (eqb x) t) && distinctb eqb t
  end.

Definition spot_eqb (a b : Z * Z) : bool :=
  (fst a =? fst b) && (snd a =? snd b).

(** The state of the first render: the [useState] defaults, before
    [initializeBoard] has run.  Its board is the empty array. *)
Definition first_render : State :=
  mkState [] BLACK PLAYING [] None false (mkModal EmptyString EmptyString)
          EmptyString.

(** Every state the component can be in, from the first render on. *)
Inductive live : State -> Prop :=
| live_first : live first_render
| live_step s e s' :
    live s -> committed (dispatch s e) = Some s' -> live s'.

(** The states from before the board is initialised. *)
Definition uninitialised (s : State) : Prop :=
  board s = [] /\ moveHistory s = [] /\ lastMove s = None /\
  showModal s = false /\
  modalContent s = mkModal EmptyString EmptyString /\
  currentPlayer s = BLACK /\ terminal (gameStatus s) = false.


(** * Properties *)

(** ** Arrays *)

Section Arrays.
Context {A : Type}.
Implicit Types (l : list A) (n : nat) (i : Z).

Lemma index_Some_range l i x :
  index l i = Some x -> 0 <= i < Z.of_nat (List.length l).
Proof.
  unfold index. destruct (0 <=? i) eqn:E; [|discriminate].
  intros H. apply Z.leb_le in E.
  assert (nth_error l (Z.to_nat i) <> None) as N by congruence.
  apply nth_error_Some in N. lia.
Qed.

Lemma index_in_range l i :
  0 <= i < Z.of_nat (List.length l) -> exists x, index l i = Some x.
Proof.
  intros H. unfold index.
  destruct (0 <=? i) eqn:E; [|apply Z.leb_gt in E; lia].
  destruct (nth_error l (Z.to_nat i)) eqn:N; [eauto|].
  apply nth_error_None in N. lia.
Qed.

Lemma index_out_of_range l i :
  ~ (0 <= i < Z.of_nat (List.length l)) -> index l i = None.
Proof.
  intros H. destruct (index l i) eqn:E; [|reflexivity].
  apply index_Some_range in E. contradiction.
Qed.

Lemma length_list_set l n v : List.length (list_set l n v) = List.length l.
Proof.
  revert n. induction l as [|h t IH]; intros [|n]; simpl; auto.
Qed.

Lemma nth_error_list_set_eq l n v :
  (n < List.length l)%nat -> nth_error (list_set l n v) n = Some v.
Proof.
  revert n. induction l as [|h t IH]; intros [|n]; simpl; intros H;
    try lia; auto.
  apply IH. lia.
Qed.

Lemma nth_error_list_set_neq l n m v :
  n <> m -> nth_error (list_set l n v) m = nth_error l m.
Proof.
  revert n m. induction l as [|h t IH]; intros [|n] [|m]; simpl; intros H;
    auto; try congruence.
Qed.

Lemma Forall_list_set (P : A -> Prop) l n v :
  Forall P l -> P v -> Forall P (list_set l n v).
Proof.
  intros H Hv. revert n.
  induction H as [|h t Hh Ht IH]; intros [|n]; simpl; auto.
Qed.

Lemma last_opt_snoc l x : last_opt (l ++ [x]) = Some x.
Proof. unfold last_opt. rewrite rev_app_distr. reflexivity. Qed.

Lemma last_opt_Some l x :
  last_opt l = Some x -> l = removelast l ++ [x].
Proof.
  unfold last_opt. intros H.
  destruct (rev l) as [|y t] eqn:E; [discriminate|]. injection H as ->.
  assert (l = rev t ++ [x]) as ->.
  { rewrite <- (rev_involutive l), E. reflexivity. }
  rewrite removelast_last. reflexivity.
Qed.
End Arrays.

(** ** Equality tests *)

Lemma status_eqb_eq (a b : GAME_STATUS) : status_eqb a b = true <-> a = b.
Proof. destruct a, b; simpl; split; congruence. Qed.

Lemma piece_eqb_eq (a b : PIECE_TYPE) : piece_eqb a b = true <-> a = b.
Proof. destruct a, b; simpl; split; congruence. Qed.

Lemma strict_eq_true (v : option PIECE_TYPE) (p : PIECE_TYPE) :
  strict_eq v p = true <-> v = Some p.
Proof.
  destruct v as [q|]; simpl; [|split; discriminate].
  rewrite piece_eqb_eq. split; congruence.
Qed.

Lemma in_grid_spec (r c : Z) :
  in_grid r c = true <-> (0 <= r < BOARD_SIZE /\ 0 <= c < BOARD_SIZE).
Proof.
  unfold in_grid. rewrite !andb_true_iff, !Z.leb_le, !Z.ltb_lt. lia.
Qed.

Lemma on_board_in_grid (r c : Z) : on_board r c <-> in_grid r c = true.
Proof. rewrite in_grid_spec. unfold on_board, BOARD_SIZE. tauto. Qed.

(** ** Boards of the grid's shape *)

Lemma grid_shaped_empty : grid_shaped empty_board.
Proof. split; [reflexivity|]. repeat constructor. Qed.

Lemma grid_row (b : Board) (r : Z) :
  grid_shaped b -> 0 <= r < BOARD_SIZE ->
  exists rw, index b r = Some rw /\ List.length rw = Z.to_nat BOARD_SIZE.
Proof.
  intros [Hl Hr] H.
  destruct (index_in_range b r) as [rw E]; [rewrite Hl; unfold BOARD_SIZE in *; lia|].
  exists rw. split; [assumption|].
  unfold index in E. destruct (0 <=? r); [|discriminate].
  apply nth_error_In in E. rewrite Forall_forall in Hr. auto.
Qed.

Lemma grid_no_row (b : Board) (r : Z) :
  grid_shaped b -> ~ (0 <= r < BOARD_SIZE) -> index b r = None.
Proof.
  intros [Hl _] H. apply index_out_of_range. rewrite Hl.
  unfold BOARD_SIZE in *. lia.
Qed.

Lemma grid_get_row (b : Board) (r c : Z) :
  grid_shaped b -> 0 <= r < BOARD_SIZE ->
  board_get b r c = Ret (cell b r c).
Proof.
  intros G Hr. destruct (grid_row b r G Hr) as (rw & E & _).
  unfold board_get, cell. rewrite E. reflexivity.
Qed.

Lemma grid_cell_off (b : Board) (r c : Z) :
  grid_shaped b -> in_grid r c = false -> cell b r c = None.
Proof.
  intros G H. unfold cell.
  destruct (index b r) as [rw|] eqn:E; [|reflexivity].
  assert (0 <= r < BOARD_SIZE) as Hr.
  { destruct G as [Hl _]. apply index_Some_range in E. rewrite Hl in E.
    unfold BOARD_SIZE in *. lia. }
  destruct (grid_row b r G Hr) as (rw' & E' & L).
  assert (rw' = rw) as -> by congruence.
  apply index_out_of_range. rewrite L. intros Hc.
  assert (in_grid r c = true); [|congruence].
  apply in_grid_spec. unfold BOARD_SIZE in *. lia.
Qed.

Lemma board_set_grid (b : Board) (r c : Z) (v : PIECE_TYPE) :
  grid_shaped b -> in_grid r c = true ->
  exists nb, board_set b r c v = Stored nb /\ grid_shaped nb.
Proof.
  intros G H. apply in_grid_spec in H. destruct H as [Hr Hc].
  destruct (grid_row b r G Hr) as (rw & E & L).
  destruct (index_in_range rw c) as [q Q].
  { rewrite L. unfold BOARD_SIZE in *. lia. }
  unfold board_set. rewrite E, Q. eexists. split; [reflexivity|].
  destruct G as [Hl Hrows]. split.
  - rewrite length_list_set. assumption.
  - apply Forall_list_set; [assumption|].
    rewrite length_list_set. assumption.
Qed.

Lemma board_set_Stored (b nb : Board) (r c : Z) (v : PIECE_TYPE) :
  board_set b r c v = Stored nb ->
  exists rw q, index b r = Some rw /\ index rw c = Some q /\
               nb = list_set b (Z.to_nat r) (list_set rw (Z.to_nat c) v).
Proof.
  unfold board_set. destruct (index b r) as [rw|] eqn:R; [|discriminate].
  destruct (index rw c) as [q|] eqn:Q; [|discriminate].
  intros H. injection H as <-. exists rw, q. auto.
Qed.

Lemma replay_on_grid (h : list Move) (b : Board) :
  Forall on_grid h -> grid_shaped b ->
  exists nb, replay h b = Stored nb /\ grid_shaped nb.
Proof.
  intros H. revert b. induction H as [|m h Hm Hh IH]; intros b G; simpl.
  - eauto.
  - destruct (board_set_grid b (row m) (col m) (player m) G Hm) as (b' & E & G').
    rewrite E. apply IH. assumption.
Qed.

Lemma replay_snoc (h : list Move) (m : Move) (b : Board) :
  replay (h ++ [m]) b =
  match replay h b with
  | Stored b' => board_set b' (row m) (col m) (player m)
  | RowUndefined => RowUndefined
  | OutsideRow => OutsideRow
  end.
Proof.
  revert b. induction h as [|x h IH]; intros b; simpl.
  - destruct (board_set b (row m) (col m) (player m)); reflexivity.
  - destruct (board_set b (row x) (col x) (player x)); auto.
Qed.

(** ** Pause and resume *)

(** C7. [handlePauseResume] takes PLAYING to PAUSED and PAUSED to PLAYING,
    and leaves the status as it is in BLACK_WIN, WHITE_WIN and DRAW. *)
Theorem pause_resume_status (s : State) :
  gameStatus (handlePauseResume s) =
  match gameStatus s with
  | PLAYING => PAUSED
  | PAUSED => PLAYING
  | BLACK_WIN => BLACK_WIN
  | WHITE_WIN => WHITE_WIN
  | DRAW => DRAW
  end.
Proof.
  unfold handlePauseResume. destruct (gameStatus s) eqn:E; simpl; auto.
Qed.

(** C10. [handlePauseResume] writes nothing but the status: the board, the
    move history, the current player and the last move stay as they are in
    every state (and so do the modal and the notice). *)
Theorem pause_resume_frame (s : State) :
  board (handlePauseResume s) = board s /\
  moveHistory (handlePauseResume s) = moveHistory s /\
  currentPlayer (handlePauseResume s) = currentPlayer s /\
  lastMove (handlePauseResume s) = lastMove s /\
  showModal (handlePauseResume s) = showModal s /\
  modalContent (handlePauseResume s) = modalContent s /\
  errorMessage (handlePauseResume s) = errorMessage s.
Proof.
  unfold handlePauseResume.
  destruct (status_eqb (gameStatus s) PLAYING);
    [|destruct (status_eqb (gameStatus s) PAUSED)];
    simpl; repeat split.
Qed.

(** ** Rejected clicks *)

Lemma same_game_notice (s : State) (e : string) :
  same_game s (setErrorMessage s e).
Proof. repeat split. Qed.

Lemma same_game_refl (s : State) : same_game s s.
Proof. repeat split. Qed.

(** C2, as the code has it.  The handler has no test of the coordinates and
    no notice of its own for them.  On a 15x15 board a click off the grid
    is never accepted: when the game is not PLAYING it gets the notice of
    a game not in progress; when PLAYING, a row on the grid with a column
    off it reads [undefined], which is not EMPTY, and gets the notice of an
    occupied cell, and a row off the grid makes [board[row][col]] throw a
    TypeError before any setter is called.  In each case the board, the
    history, the status, the current player and the last move are
    unchanged. *)
Theorem click_off_grid (s : State) (row col : Z) :
  grid_shaped (board s) -> in_grid row col = false ->
  handleCellClick s row col =
    (if negb (status_eqb (gameStatus s) PLAYING)
     then Returned (setErrorMessage s MSG_NOT_PLAYING)
     else if (0 <=? row) && (row <? BOARD_SIZE)
          then Returned (setErrorMessage s MSG_OCCUPIED)
          else Threw s) /\
  exists s', committed (handleCellClick s row col) = Some s' /\ same_game s s'.
Proof.
  intros G H.
  assert (handleCellClick s row col =
    (if negb (status_eqb (gameStatus s) PLAYING)
     then Returned (setErrorMessage s MSG_NOT_PLAYING)
     else if (0 <=? row) && (row <? BOARD_SIZE)
          then Returned (setErrorMessage s MSG_OCCUPIED)
          else Threw s)) as E.
  { unfold handleCellClick.
    destruct (negb (status_eqb (gameStatus s) PLAYING)); [reflexivity|].
    destruct ((0 <=? row) && (row <? BOARD_SIZE)) eqn:R.
    - apply andb_true_iff in R. rewrite Z.leb_le, Z.ltb_lt in R.
      rewrite (grid_get_row _ _ _ G R), (grid_cell_off _ _ _ G H).
      reflexivity.
    - assert (~ (0 <= row < BOARD_SIZE)) as R'.
      { intros [R1 R2]. apply Z.leb_le in R1. apply Z.ltb_lt in R2.
        rewrite R1, R2 in R. discriminate. }
      unfold board_get. rewrite (grid_no_row _ _ G R'). reflexivity. }
  split; [exact E|]. rewrite E.
  destruct (negb (status_eqb (gameStatus s) PLAYING));
    [|destruct ((0 <=? row) && (row <? BOARD_SIZE))];
    eexists; (split; [reflexivity|]);
    auto using same_game_notice, same_game_refl.
Qed.

Lemma click_off_grid_witness :
  grid_shaped (board mounted) /\ in_grid 3 20 = false /\
  handleCellClick mounted 3 20 = Returned (setErrorMessage mounted MSG_OCCUPIED).
Proof.
  split; [exact grid_shaped_empty|]. split; [reflexivity|].
  exact (proj1 (click_off_grid mounted 3 20 grid_shaped_empty eq_refl)).
Defined.

(** C2 as worded fails on the first board of a game: the click (3, 20) is
    reported with the notice of an occupied cell, and the click (20, 3)
    does not return at all. *)
Lemma click_off_grid_counterexample :
  gameStatus mounted = PLAYING /\
  in_grid 3 20 = false /\
  ~ (exists s', handleCellClick mounted 3 20 = Returned s' /\
                errorMessage s' <> MSG_OCCUPIED) /\
  in_grid 20 3 = false /\
  ~ (exists s', handleCellClick mounted 20 3 = Returned s').
Proof.
  split; [reflexivity|]. split; [reflexivity|]. split; [|split; [reflexivity|]].
  - intros (s' & E & N). vm_compute in E. injection E as <-.
    apply N. reflexivity.
  - intros (s' & E). vm_compute in E. discriminate.
Qed.

(** C6, as the code has it.  A click on a cell of the grid that holds a
    stone is rejected in every state and leaves the board, the history, the
    status and the current player (and the last move) as they are; the
    notice is the one of an occupied cell when the game is PLAYING, and the
    one of a game not in progress otherwise, since the status is tested
    first. *)
Theorem click_occupied (s : State) (row col : Z) (q : PIECE_TYPE) :
  in_grid row col = true ->
  board_get (board s) row col = Ret (Some q) -> q <> EMPTY ->
  exists s',
    handleCellClick s row col = Returned s' /\
    errorMessage s' =
      (if status_eqb (gameStatus s) PLAYING
       then MSG_OCCUPIED else MSG_NOT_PLAYING) /\
    same_game s s'.
Proof.
  intros _ E N. unfold handleCellClick.
  destruct (status_eqb (gameStatus s) PLAYING); simpl.
  - rewrite E. simpl.
    assert (piece_eqb q EMPTY = false) as ->.
    { destruct q; auto. congruence. }
    simpl. eexists. split; [reflexivity|]. split; [reflexivity|].
    apply same_game_notice.
  - eexists. split; [reflexivity|]. split; [reflexivity|].
    apply same_game_notice.
Qed.

Lemma click_occupied_witness :
  exists s',
    handleCellClick (after [CellClick 7 7]) 7 7 = Returned s' /\
    errorMessage s' = MSG_OCCUPIED /\
    same_game (after [CellClick 7 7]) s'.
Proof.
  apply (click_occupied (after [CellClick 7 7]) 7 7 BLACK);
    [reflexivity | reflexivity | discriminate].
Defined.

(** C6 as worded fails in a paused game: the click on the stone at (7, 7)
    is rejected with the notice of a game not in progress, not with the one
    of an occupied cell. *)
Lemma click_occupied_counterexample :
  in_grid 7 7 = true /\
  board_get (board paused_with_stone) 7 7 = Ret (Some BLACK) /\
  handleCellClick paused_with_stone 7 7 =
    Returned (setErrorMessage paused_with_stone MSG_NOT_PLAYING) /\
  handleCellClick paused_with_stone 7 7 <>
    Returned (setErrorMessage paused_with_stone MSG_OCCUPIED).
Proof.
  split; [reflexivity|]. split; [reflexivity|]. split; [reflexivity|].
  vm_compute. intros H. discriminate H.
Qed.

(** ** The win check reads the neighbours only *)

Lemma scan_ext (f g : Z -> js bool) (l : list Z) (count : Z) :
  (forall i, In i l -> f i = g i) -> scan f l count = scan g l count.
Proof.
  revert count. induction l as [|i l IH]; intros count H; simpl; [reflexivity|].
  rewrite (H i (or_introl eq_refl)).
  destruct (g i) as [[|]|]; simpl; auto.
  apply IH. intros j Hj. apply H. right. assumption.
Qed.

Lemma steps_positive (i : Z) : In i steps -> 1 <= i <= 4.
Proof. unfold steps. simpl. intros H. lia. Qed.

Section Agree.
Variables (b1 b2 : Board) (row col : Z) (p : PIECE_TYPE).
Hypothesis agree :
  forall r c, (r, c) <> (row, col) -> board_get b1 r c = board_get b2 r c.

Lemma same_stone_agree (r c : Z) :
  (r, c) <> (row, col) -> same_stone b1 r c p = same_stone b2 r c p.
Proof.
  intros N. unfold same_stone. rewrite (agree r c N). reflexivity.
Qed.

Lemma checkWin_from_agree (dirs : list (Z * Z)) :
  (forall d, In d dirs -> d <> (0, 0)) ->
  checkWin_from b1 row col p dirs = checkWin_from b2 row col p dirs.
Proof.
  induction dirs as [|[dx dy] rest IH]; intros D; cbn [checkWin_from];
    [reflexivity|].
  assert ((dx, dy) <> (0, 0)) as N by (apply D; left; reflexivity).
  assert (dx <> 0 \/ dy <> 0) as N'.
  { destruct (Z.eq_dec dx 0), (Z.eq_dec dy 0); subst; auto. }
  rewrite (scan_ext _ (fun i => same_stone b2 (row + i * dx) (col + i * dy) p)).
  2:{ intros i Hi. apply steps_positive in Hi. apply same_stone_agree.
      intros E. injection E as E1 E2. nia. }
  destruct (scan _ steps 1) as [count|]; cbn [bind]; [|reflexivity].
  rewrite (scan_ext _ (fun i => same_stone b2 (row - i * dx) (col - i * dy) p)).
  2:{ intros i Hi. apply steps_positive in Hi. apply same_stone_agree.
      intros E. injection E as E1 E2. nia. }
  destruct (scan _ steps count) as [count'|]; cbn [bind]; [|reflexivity].
  destruct (count' >=? 5); [reflexivity|].
  apply IH. intros d Hd. apply D. right. assumption.
Qed.
End Agree.

Lemma directions_nonzero (d : Z * Z) : In d directions -> d <> (0, 0).
Proof.
  unfold directions. simpl.
  intros [<-|[<-|[<-|[<-|[]]]]]; discriminate.
Qed.

Lemma board_get_set_other (b nb : Board) (row col r c : Z) (v : PIECE_TYPE) :
  board_set b row col v = Stored nb -> (r, c) <> (row, col) ->
  board_get nb r c = board_get b r c.
Proof.
  intros S N. apply board_set_Stored in S.
  destruct S as (rw & q & R & Q & ->).
  pose proof (index_Some_range _ _ _ R) as Rr.
  pose proof (index_Some_range _ _ _ Q) as Rc.
  unfold board_get, index in *.
  destruct (0 <=? r) eqn:Er; [|reflexivity]. apply Z.leb_le in Er.
  destruct (0 <=? row) eqn:Erow; [|discriminate].
  destruct (0 <=? col) eqn:Ecol; [|discriminate].
  destruct (Z.eq_dec r row) as [->|Nr].
  - rewrite nth_error_list_set_eq by lia. rewrite R.
    destruct (0 <=? c) eqn:Ec; [|reflexivity]. apply Z.leb_le in Ec.
    rewrite nth_error_list_set_neq; [reflexivity|].
    intros E. apply N. f_equal. lia.
  - rewrite nth_error_list_set_neq by lia. reflexivity.
Qed.

(** C9. [checkWin(row, col, player)] never reads the cell (row, col): on two
    boards that agree on every other cell it gives the same answer.  So the
    check made on the board from before a placement is the check on the
    board with the stone placed. *)
Theorem checkWin_ignores_own_cell (b1 b2 : Board) (row col : Z)
        (p : PIECE_TYPE) :
  (forall r c, (r, c) <> (row, col) -> board_get b1 r c = board_get b2 r c) ->
  checkWin b1 row col p = checkWin b2 row col p.
Proof.
  intros H. unfold checkWin.
  apply checkWin_from_agree; [exact H | exact directions_nonzero].
Qed.

Lemma checkWin_before_placement (b nb : Board) (row col : Z)
      (v p : PIECE_TYPE) :
  board_set b row col v = Stored nb ->
  checkWin b row col p = checkWin nb row col p.
Proof.
  intros S. unfold checkWin.
  apply checkWin_from_agree; [|exact directions_nonzero].
  intros r c N. symmetry. exact (board_get_set_other _ _ _ _ _ _ _ S N).
Qed.

Lemma checkWin_ignores_own_cell_witness :
  checkWin empty_board 7 7 BLACK
  = checkWin (board (after [CellClick 7 7])) 7 7 BLACK.
Proof.
  apply checkWin_ignores_own_cell. intros r c N. symmetry.
  apply (board_get_set_other empty_board _ 7 7 r c BLACK);
    [reflexivity | exact N].
Defined.

(** ** The win check and five in a line *)

Lemma same_stone_pure (b : Board) (r c : Z) (p : PIECE_TYPE) :
  grid_shaped b -> same_stone b r c p = Ret (stoneb b r c p).
Proof.
  intros G. unfold same_stone, stoneb.
  destruct (in_grid r c) eqn:E; [|reflexivity].
  apply in_grid_spec in E. destruct E as [Hr _].
  rewrite (grid_get_row _ _ _ G Hr). reflexivity.
Qed.

Lemma stoneb_spec (b : Board) (r c : Z) (p : PIECE_TYPE) :
  stoneb b r c p = true <-> stone_at b r c p.
Proof.
  unfold stoneb, stone_at, on_board.
  rewrite andb_true_iff, strict_eq_true, in_grid_spec. unfold BOARD_SIZE.
  tauto.
Qed.

Lemma scan_pure (cell : Z -> js bool) (f : Z -> bool) (l : list Z) (count : Z) :
  (forall i, cell i = Ret (f i)) ->
  scan cell l count = Ret (count + lead f l).
Proof.
  intros H. revert count.
  induction l as [|i l IH]; intros count; cbn [scan lead].
  - f_equal. lia.
  - rewrite H. cbn [bind]. destruct (f i).
    + rewrite IH. f_equal. lia.
    + f_equal. lia.
Qed.

Lemma checkWin_from_pure (b : Board) (row col : Z) (p : PIECE_TYPE)
      (dirs : list (Z * Z)) :
  grid_shaped b ->
  checkWin_from b row col p dirs = Ret (existsb (line_wins b row col p) dirs).
Proof.
  intros G. induction dirs as [|[dx dy] rest IH]; cbn [checkWin_from existsb];
    [reflexivity|].
  rewrite (scan_pure _ (fun i => stoneb b (row + i * dx) (col + i * dy) p))
    by (intros i; apply same_stone_pure; exact G).
  cbn [bind].
  rewrite (scan_pure _ (fun i => stoneb b (row - i * dx) (col - i * dy) p))
    by (intros i; apply same_stone_pure; exact G).
  cbn [bind]. unfold line_wins at 1. rewrite Z.geb_leb.
  destruct (5 <=? _); [reflexivity | exact IH].
Qed.

Section Runs.
Variable P : Z -> Prop.

Lemma run_length_unique (n m : Z) :
  run_length P n -> run_length P m -> n = m.
Proof.
  intros (Hn & An & Sn) (Hm & Am & Sm).
  destruct (Z.lt_trichotomy n m) as [L|[E|L]]; [|exact E|].
  - exfalso. apply Sn. apply Am. lia.
  - exfalso. apply Sm. apply An. lia.
Qed.

Hypothesis P_dec : forall i, P i \/ ~ P i.

Lemma run_length_search (fuel : nat) (n : Z) :
  0 <= n -> (forall i, 1 <= i <= n -> P i) ->
  ~ P (n + Z.of_nat fuel + 1) ->
  exists m, run_length P m.
Proof.
  revert n. induction fuel as [|fuel IH]; intros n Hn A St.
  - exists n. repeat split; auto; try lia.
    replace (n + 1) with (n + Z.of_nat 0 + 1) by lia. exact St.
  - destruct (P_dec (n + 1)) as [Y|N].
    + apply (IH (n + 1)); [lia| |].
      * intros i Hi. destruct (Z.eq_dec i (n + 1)) as [->|]; [exact Y|].
        apply A. lia.
      * replace (n + 1 + Z.of_nat fuel + 1)
          with (n + Z.of_nat (S fuel) + 1) by lia.
        exact St.
    + exists n. repeat split; auto; lia.
Qed.

Lemma run_length_exists (N : Z) :
  0 <= N -> ~ P (N + 1) -> exists m, run_length P m.
Proof.
  intros HN St. apply (run_length_search (Z.to_nat N) 0); [lia| |].
  - intros i Hi. lia.
  - replace (0 + Z.of_nat (Z.to_nat N) + 1) with (N + 1) by lia. exact St.
Qed.
End Runs.

Lemma run_length_iff (P Q : Z -> Prop) (n : Z) :
  (forall i, P i <-> Q i) -> run_length P n -> run_length Q n.
Proof.
  intros H (Hn & A & S). repeat split; [lia.. | |].
  - intros i Hi. apply H, A, Hi.
  - intros q. apply S, H, q.
Qed.

Lemma lead_run (f : Z -> bool) (n : Z) :
  run_length (fun i => f i = true) n -> lead f steps = Z.min n 4.
Proof.
  intros (Hn & A & S). unfold steps. simpl.
  assert (n = 0 \/ n = 1 \/ n = 2 \/ n = 3 \/ 4 <= n) as C by lia.
  destruct C as [->|[->|[->|[->|C]]]]; simpl in S.
  - destruct (f 1); [congruence | reflexivity].
  - rewrite (A 1) by lia. destruct (f 2); [congruence | reflexivity].
  - rewrite (A 1), (A 2) by lia. destruct (f 3); [congruence | reflexivity].
  - rewrite (A 1), (A 2), (A 3) by lia.
    destruct (f 4); [congruence | reflexivity].
  - rewrite (A 1), (A 2), (A 3), (A 4) by lia. lia.
Qed.

(** A scan along a line leaves the grid within [16 + |row| + |col|] steps. *)
Lemma stone_run_exists (b : Board) (p : PIECE_TYPE) (fr fc : Z -> Z) (N : Z) :
  0 <= N -> in_grid (fr (N + 1)) (fc (N + 1)) = false ->
  exists n, run_length (fun i => stone_at b (fr i) (fc i) p) n.
Proof.
  intros HN Off. apply (run_length_exists _) with (N := N).
  - intros i. destruct (stoneb b (fr i) (fc i) p) eqn:E.
    + left. apply stoneb_spec. exact E.
    + right. intros Y. apply stoneb_spec in Y. congruence.
  - exact HN.
  - intros Y. apply stoneb_spec in Y. unfold stoneb in Y.
    rewrite Off in Y. discriminate Y.
Qed.

Lemma leaves_grid (row col dx dy : Z) :
  In (dx, dy) directions ->
  in_grid (row + (15 + Z.abs row + Z.abs col + 1) * dx)
          (col + (15 + Z.abs row + Z.abs col + 1) * dy) = false /\
  in_grid (row - (15 + Z.abs row + Z.abs col + 1) * dx)
          (col - (15 + Z.abs row + Z.abs col + 1) * dy) = false.
Proof.
  intros D.
  assert (forall r c, ~ (0 <= r < BOARD_SIZE /\ 0 <= c < BOARD_SIZE) ->
                      in_grid r c = false) as off.
  { intros r c H. destruct (in_grid r c) eqn:E; [|reflexivity].
    apply in_grid_spec in E. contradiction. }
  unfold directions in D. simpl in D.
  destruct D as [E|[E|[E|[E|[]]]]]; injection E as <- <-;
    split; apply off; unfold BOARD_SIZE; lia.
Qed.

Lemma line_wins_spec (b : Board) (row col dx dy : Z) (p : PIECE_TYPE) :
  In (dx, dy) directions ->
  line_wins b row col p (dx, dy) = true <->
  exists k, line_count b row col dx dy p k /\ 5 <= k.
Proof.
  intros D. destruct (leaves_grid row col dx dy D) as [OffF OffB].
  destruct (stone_run_exists b p (fun i => row + i * dx) (fun i => col + i * dy)
              (15 + Z.abs row + Z.abs col)) as [fwd F]; [lia | exact OffF |].
  destruct (stone_run_exists b p (fun i => row - i * dx) (fun i => col - i * dy)
              (15 + Z.abs row + Z.abs col)) as [bwd B]; [lia | exact OffB |].
  assert (lead (fun i => stoneb b (row + i * dx) (col + i * dy) p) steps
          = Z.min fwd 4) as LF.
  { apply lead_run. revert F. apply run_length_iff.
    intros i. symmetry. apply stoneb_spec. }
  assert (lead (fun i => stoneb b (row - i * dx) (col - i * dy) p) steps
          = Z.min bwd 4) as LB.
  { apply lead_run. revert B. apply run_length_iff.
    intros i. symmetry. apply stoneb_spec. }
  unfold line_wins. rewrite LF, LB, Z.leb_le.
  pose proof F as (F0 & _). pose proof B as (B0 & _).
  split.
  - intros H. exists (1 + fwd + bwd). split; [|lia].
    exists fwd, bwd. auto.
  - intros (k & (fwd' & bwd' & F' & B' & ->) & H).
    pose proof (run_length_unique _ _ _ F F') as EF.
    pose proof (run_length_unique _ _ _ B B') as EB.
    lia.
Qed.

Lemma checkWin_pure (b : Board) (row col : Z) (p : PIECE_TYPE) :
  grid_shaped b ->
  checkWin b row col p = Ret (existsb (line_wins b row col p) directions).
Proof. apply checkWin_from_pure. Qed.

Lemma along_in_directions (o : orientation) :
  In (fst (along o), snd (along o)) directions.
Proof. destruct o; simpl; tauto. Qed.

Lemma directions_along (d : Z * Z) :
  In d directions -> exists o, along o = d.
Proof.
  unfold directions. simpl. intros [<-|[<-|[<-|[<-|[]]]]].
  - exists Horizontal. reflexivity.
  - exists Vertical. reflexivity.
  - exists Diagonal. reflexivity.
  - exists AntiDiagonal. reflexivity.
Qed.

Lemma wins_five_through (b : Board) (row col : Z) (p : PIECE_TYPE) :
  existsb (line_wins b row col p) directions = true <->
  five_through b row col p.
Proof.
  rewrite existsb_exists. unfold five_through. split.
  - intros ([dx dy] & D & W). apply line_wins_spec in W; [|exact D].
    destruct W as (k & L & H).
    destruct (directions_along _ D) as [o Eo].
    exists o, k. rewrite Eo. auto.
  - intros (o & k & L & H).
    exists (fst (along o), snd (along o)).
    split; [apply along_in_directions|].
    apply line_wins_spec; [apply along_in_directions|]. exists k. auto.
Qed.

(** C3. On a 15x15 board [checkWin(row, col, player)] returns, and it
    returns true exactly when one of the four orientations holds a count of
    at least 5: the stone placed, plus the stones of the player that follow
    it without a gap on either side, each run stopping at the first cell
    that holds something else or is off the grid.  Counts above 5 win as
    well.  (This holds for every (row, col), on the grid or not.) *)
Theorem checkWin_spec (b : Board) (row col : Z) (p : PIECE_TYPE) :
  grid_shaped b ->
  (checkWin b row col p = Ret true <-> five_through b row col p) /\
  (checkWin b row col p = Ret false <-> ~ five_through b row col p).
Proof.
  intros G. rewrite (checkWin_pure _ _ _ _ G), <- wins_five_through.
  destruct (existsb (line_wins b row col p) directions); split; split;
    intros H; try reflexivity; try congruence; try tauto.
Qed.

Lemma checkWin_spec_witness :
  (checkWin (board (after black_five)) 7 7 BLACK = Ret true <->
   five_through (board (after black_five)) 7 7 BLACK) /\
  (checkWin (board (after black_five)) 7 7 BLACK = Ret false <->
   ~ five_through (board (after black_five)) 7 7 BLACK).
Proof.
  apply (checkWin_spec (board (after black_five)) 7 7 BLACK).
  vm_compute. split; [reflexivity | repeat constructor].
Defined.

(** ** The draw check *)

Lemma In_indices (i : Z) : In i indices <-> 0 <= i < BOARD_SIZE.
Proof.
  unfold indices, BOARD_SIZE. rewrite in_map_iff. split.
  - intros (n & <- & H). apply in_seq in H. lia.
  - intros H. exists (Z.to_nat i). split; [lia|]. apply in_seq. lia.
Qed.

Lemma row_has_empty_pure (b : Board) (i : Z) (cols : list Z) :
  grid_shaped b -> 0 <= i < BOARD_SIZE ->
  row_has_empty b i cols
  = Ret (existsb (fun j => strict_eq (cell b i j) EMPTY) cols).
Proof.
  intros G Hi. induction cols as [|j cols IH]; cbn [row_has_empty existsb];
    [reflexivity|].
  rewrite (grid_get_row _ _ _ G Hi). cbn [bind].
  destruct (strict_eq (cell b i j) EMPTY); [reflexivity | exact IH].
Qed.

Lemma checkDraw_rows_pure (b : Board) (rows : list Z) :
  grid_shaped b -> (forall i, In i rows -> 0 <= i < BOARD_SIZE) ->
  checkDraw_rows b rows
  = Ret (forallb (fun i =>
                    negb (existsb (fun j => strict_eq (cell b i j) EMPTY)
                                  indices)) rows).
Proof.
  intros G. induction rows as [|i rows IH]; intros H;
    cbn [checkDraw_rows forallb]; [reflexivity|].
  rewrite (row_has_empty_pure _ _ _ G (H i (or_introl eq_refl))). cbn [bind].
  destruct (existsb _ indices); cbn [negb andb]; [reflexivity|].
  apply IH. intros k Hk. apply H. right. exact Hk.
Qed.

(** On a board with an EMPTY cell the draw check answers false. *)
Lemma checkDraw_with_empty (b : Board) (r c : Z) :
  grid_shaped b -> in_grid r c = true -> cell b r c = Some EMPTY ->
  checkDraw b = Ret false.
Proof.
  intros G H E. apply in_grid_spec in H. destruct H as [Hr Hc].
  unfold checkDraw.
  rewrite (checkDraw_rows_pure _ _ G) by (intros i; apply In_indices).
  f_equal. destruct (forallb _ indices) eqn:F; [|reflexivity].
  rewrite forallb_forall in F. specialize (F r (proj2 (In_indices r) Hr)).
  apply negb_true_iff in F.
  assert (existsb (fun j => strict_eq (cell b r j) EMPTY) indices = true)
    as X; [|congruence].
  apply existsb_exists. exists c. split; [apply In_indices; exact Hc|].
  rewrite E. reflexivity.
Qed.

(** ** Counting stones *)

Lemma filter_list_set (f : PIECE_TYPE -> bool) (l : list PIECE_TYPE)
      (n : nat) (old v : PIECE_TYPE) :
  nth_error l n = Some old ->
  (List.length (filter f (list_set l n v)) + b2n (f old)
   = List.length (filter f l) + b2n (f v))%nat.
Proof.
  revert n. induction l as [|h t IH]; intros [|n] H; simpl in H;
    try discriminate.
  - injection H as ->. simpl. destruct (f v), (f old); simpl; lia.
  - specialize (IH n H). simpl. destruct (f h); simpl; lia.
Qed.

Lemma list_sum_list_set {A : Type} (g : A -> nat) (l : list A) (n : nat)
      (old v : A) :
  nth_error l n = Some old ->
  (list_sum (map g (list_set l n v)) + g old
   = list_sum (map g l) + g v)%nat.
Proof.
  revert n. induction l as [|h t IH]; intros [|n] H; simpl in H;
    try discriminate.
  - injection H as ->. simpl. lia.
  - specialize (IH n H). simpl. lia.
Qed.

Lemma count_cells_set (f : PIECE_TYPE -> bool) (b nb : Board) (r c : Z)
      (old v : PIECE_TYPE) :
  board_set b r c v = Stored nb -> cell b r c = Some old ->
  (count_cells f nb + b2n (f old) = count_cells f b + b2n (f v))%nat.
Proof.
  intros S E. apply board_set_Stored in S.
  destruct S as (rw & q & R & Q & ->).
  unfold cell in E. rewrite R, Q in E. injection E as ->.
  unfold index in R, Q.
  destruct (0 <=? r); [|discriminate]. destruct (0 <=? c); [|discriminate].
  unfold count_cells.
  pose proof (list_sum_list_set (fun x => List.length (filter f x)) b
                (Z.to_nat r) rw (list_set rw (Z.to_nat c) v) R) as H1.
  pose proof (filter_list_set f rw (Z.to_nat c) old v Q) as H2.
  cbv beta in H1. lia.
Qed.

(** ** Histories and the boards they build *)

Lemma board_set_shape (b nb : Board) (r c : Z) (v : PIECE_TYPE) :
  grid_shaped b -> board_set b r c v = Stored nb -> grid_shaped nb.
Proof.
  intros [Hl Hrows] S. apply board_set_Stored in S.
  destruct S as (rw & q & R & Q & ->). split.
  - rewrite length_list_set. exact Hl.
  - apply Forall_list_set; [exact Hrows|]. rewrite length_list_set.
    unfold index in R. destruct (0 <=? r); [|discriminate].
    apply nth_error_In in R. rewrite Forall_forall in Hrows. auto.
Qed.

Lemma board_get_cell (b : Board) (r c : Z) (v : option PIECE_TYPE) :
  board_get b r c = Ret v -> cell b r c = v.
Proof.
  unfold board_get, cell. destruct (index b r); [|discriminate].
  intros H. injection H as <-. reflexivity.
Qed.

Lemma board_get_set (b : Board) (r c : Z) (q v : PIECE_TYPE) :
  board_get b r c = Ret (Some q) -> exists nb, board_set b r c v = Stored nb.
Proof.
  unfold board_get, board_set. destruct (index b r) as [rw|]; [|discriminate].
  intros H. injection H as ->. eauto.
Qed.

Lemma cell_in_grid (b : Board) (r c : Z) (q : PIECE_TYPE) :
  grid_shaped b -> cell b r c = Some q -> in_grid r c = true.
Proof.
  intros G E. destruct (in_grid r c) eqn:I; [reflexivity|].
  rewrite (grid_cell_off _ _ _ G I) in E. discriminate.
Qed.

Lemma legal_history_shape (h : list Move) (b : Board) :
  legal_history h b -> grid_shaped b.
Proof.
  induction 1 as [|h b m b' L IH E T S].
  - exact grid_shaped_empty.
  - exact (board_set_shape _ _ _ _ _ IH S).
Qed.

Lemma legal_history_replay (h : list Move) (b : Board) :
  legal_history h b -> replay h empty_board = Stored b.
Proof.
  induction 1 as [|h b m b' L IH E T S].
  - reflexivity.
  - rewrite replay_snoc, IH. exact S.
Qed.

Lemma legal_history_snoc_inv (h : list Move) (m : Move) (b' : Board) :
  legal_history (h ++ [m]) b' ->
  exists b, legal_history h b /\ player m = turn (List.length h) /\
            board_set b (row m) (col m) (player m) = Stored b'.
Proof.
  intros L. inversion L as [E|h0 b m0 b0 L0 G T S E].
  - destruct h; discriminate.
  - apply app_inj_tail in E. destruct E as [-> ->]. eauto.
Qed.

Lemma turn_succ (n : nat) : turn (S n) = other (turn n).
Proof.
  unfold turn. rewrite Nat.even_succ, <- Nat.negb_even.
  destruct (Nat.even n); reflexivity.
Qed.

(** The stones on the board of a legal history: one per move, BLACK one
    ahead after an odd number of moves. *)
Lemma legal_history_count (h : list Move) (b : Board) :
  legal_history h b ->
  occupied b = List.length h /\
  stones BLACK b
  = (stones WHITE b + b2n (negb (Nat.even (List.length h))))%nat.
Proof.
  induction 1 as [|h b m b' L [IHo IHs] E T S].
  - split; reflexivity.
  - apply board_get_cell in E.
    pose proof (count_cells_set (fun q => negb (piece_eqb q EMPTY))
                  _ _ _ _ _ _ S E) as Ho.
    pose proof (count_cells_set (fun q => piece_eqb q BLACK)
                  _ _ _ _ _ _ S E) as Hb.
    pose proof (count_cells_set (fun q => piece_eqb q WHITE)
                  _ _ _ _ _ _ S E) as Hw.
    unfold occupied, stones in *. rewrite length_app. cbn [List.length].
    replace (List.length h + 1)%nat with (Datatypes.S (List.length h)) by lia.
    rewrite Nat.even_succ, <- Nat.negb_even.
    rewrite T in Ho, Hb, Hw. unfold turn in Ho, Hb, Hw.
    destruct (Nat.even (List.length h)); simpl in *; lia.
Qed.

(** ** The invariant of the reachable states *)

Lemma consistent_same (s s' : State) :
  same_game s s' -> consistent s -> consistent s'.
Proof.
  intros (Eb & Eh & Eg & Ep & _). unfold consistent.
  rewrite Eb, Eh, Eg, Ep. auto.
Qed.

Lemma consistent_mounted : consistent mounted.
Proof.
  unfold consistent. simpl. repeat split.
  - repeat constructor.
  - exact legal_nil.
  - discriminate.
Qed.

Lemma handleCellClick_consistent (s s' : State) (row col : Z) :
  consistent s -> committed (handleCellClick s row col) = Some s' ->
  consistent s'.
Proof.
  intros K H. pose proof K as (G & L & ND & T).
  unfold handleCellClick in H.
  destruct (status_eqb (gameStatus s) PLAYING) eqn:P; cbn [negb] in H.
  2:{ injection H as <-. exact (consistent_same _ _ (same_game_notice _ _) K). }
  apply status_eqb_eq in P.
  destruct (board_get (board s) row col) as [v|] eqn:E.
  2:{ injection H as <-. exact K. }
  destruct (strict_eq v EMPTY) eqn:V; cbn [negb] in H.
  2:{ injection H as <-. exact (consistent_same _ _ (same_game_notice _ _) K). }
  apply strict_eq_true in V. subst v.
  destruct (board_get_set _ _ _ _ (currentPlayer s) E) as [nb S].
  rewrite S in H.
  pose proof (board_get_cell _ _ _ _ E) as C.
  pose proof (cell_in_grid _ _ _ _ G C) as I.
  rewrite (checkWin_pure _ _ _ _ G) in H.
  rewrite (checkDraw_with_empty _ _ _ G I C) in H.
  rewrite P in T. cbn [terminal] in T.
  assert (legal_history (moveHistory s ++ [mkMove row col (currentPlayer s)]) nb)
    as L'.
  { apply legal_snoc with (b := board s); simpl; auto. }
  pose proof (legal_history_shape _ _ L') as G'.
  destruct (existsb (line_wins (board s) row col (currentPlayer s)) directions);
    injection H as <-; unfold consistent; simpl.
  - split; [exact G'|]. split; [exact L'|].
    destruct (piece_eqb (currentPlayer s) BLACK); simpl;
      (split; [discriminate|]); eexists;
      rewrite last_opt_snoc; split; reflexivity.
  - split; [exact G'|]. split; [exact L'|]. rewrite P. simpl.
    split; [discriminate|].
    rewrite length_app. cbn [List.length]. rewrite Nat.add_1_r, turn_succ.
    congruence.
Qed.

Lemma handleUndo_consistent (s s' : State) :
  consistent s -> committed (handleUndo s) = Some s' -> consistent s'.
Proof.
  intros K H. pose proof K as (G & L & ND & T).
  unfold handleUndo in H.
  destruct (last_opt (moveHistory s)) as [undone|] eqn:Lo.
  2:{ injection H as <-. exact (consistent_same _ _ (same_game_notice _ _) K). }
  apply last_opt_Some in Lo. rewrite Lo in L.
  apply legal_history_snoc_inv in L. destruct L as (b0 & L0 & T0 & S0).
  rewrite (legal_history_replay _ _ L0) in H. injection H as <-.
  unfold consistent. simpl.
  split; [exact (legal_history_shape _ _ L0)|]. split; [exact L0|].
  split; [discriminate | exact T0].
Qed.

Lemma handlePauseResume_consistent (s : State) :
  consistent s -> consistent (handlePauseResume s).
Proof.
  intros (G & L & ND & T). unfold handlePauseResume.
  destruct (gameStatus s) eqn:E; simpl; unfold consistent; simpl;
    rewrite ?E; simpl; auto.
  - split; [exact G|]. split; [exact L|]. split; [discriminate | exact T].
  - split; [exact G|]. split; [exact L|]. split; [discriminate | exact T].
Qed.

Lemma step_consistent (s s' : State) (e : event) :
  consistent s -> committed (dispatch s e) = Some s' -> consistent s'.
Proof.
  intros K H. destruct e as [row col| | | | |]; simpl in H.
  - exact (handleCellClick_consistent _ _ _ _ K H).
  - exact (handleUndo_consistent _ _ K H).
  - injection H as <-. exact (handlePauseResume_consistent _ K).
  - injection H as <-. exact consistent_mounted.
  - injection H as <-. exact K.
  - injection H as <-. exact K.
Qed.

Lemma reachable_consistent (s : State) : reachable s -> consistent s.
Proof.
  induction 1 as [|s e s' R IH H].
  - exact consistent_mounted.
  - exact (step_consistent _ _ _ IH H).
Qed.

Lemma run_reachable (es : list event) (s s' : State) :
  reachable s -> run s es = Some s' -> reachable s'.
Proof.
  revert s. induction es as [|e es IH]; intros s R H; simpl in H.
  - injection H as <-. exact R.
  - destruct (committed (dispatch s e)) as [s1|] eqn:E; [|discriminate].
    exact (IH _ (reach_step _ _ _ R E) H).
Qed.

(** Every handler that starts in a reachable state stays in the model. *)
Lemma reachable_never_off_grid (s : State) (e : event) :
  reachable s -> dispatch s e <> OffGrid.
Proof.
  intros R. apply reachable_consistent in R. destruct R as (G & L & _).
  destruct e as [row col| | | | |]; simpl; try discriminate.
  - unfold handleCellClick.
    destruct (negb (status_eqb (gameStatus s) PLAYING)); [discriminate|].
    destruct (board_get (board s) row col) as [v|] eqn:E; [|discriminate].
    destruct (strict_eq v EMPTY) eqn:V; cbn [negb]; [|discriminate].
    apply strict_eq_true in V. subst v.
    destruct (board_get_set _ _ _ _ (currentPlayer s) E) as [nb S]. rewrite S.
    destruct (checkWin _ _ _ _) as [[|]|]; try discriminate.
    destruct (checkDraw _) as [[|]|]; discriminate.
  - unfold handleUndo.
    destruct (last_opt (moveHistory s)) as [undone|] eqn:Lo; [|discriminate].
    apply last_opt_Some in Lo. rewrite Lo in L.
    apply legal_history_snoc_inv in L. destruct L as (b0 & L0 & _).
    rewrite (legal_history_replay _ _ L0). discriminate.
Qed.

(** ** Board and history *)

(** C8. In every reachable state, replaying the move history in order on
    the empty 15x15 board (what [handleUndo] does to rebuild) gives the
    board of the state, the one the accepted clicks built stone by stone. *)
Theorem replay_rebuilds_board (s : State) :
  reachable s -> replay (moveHistory s) empty_board = Stored (board s).
Proof.
  intros R. apply reachable_consistent in R. destruct R as (_ & L & _).
  exact (legal_history_replay _ _ L).
Qed.

Lemma replay_rebuilds_board_witness :
  replay (moveHistory (after black_five)) empty_board
  = Stored (board (after black_five)).
Proof.
  apply replay_rebuilds_board.
  apply (run_reachable black_five mounted);
    [exact reach_mounted | vm_compute; reflexivity].
Defined.

(** C4. In every reachable state the number of cells that are not EMPTY is
    the length of the move history, and the number of BLACK stones minus
    the number of WHITE stones is 0 or 1. *)
Theorem stones_match_history (s : State) :
  reachable s ->
  occupied (board s) = List.length (moveHistory s) /\
  (Z.of_nat (stones BLACK (board s)) - Z.of_nat (stones WHITE (board s)) = 0 \/
   Z.of_nat (stones BLACK (board s)) - Z.of_nat (stones WHITE (board s)) = 1).
Proof.
  intros R. apply reachable_consistent in R. destruct R as (_ & L & _).
  destruct (legal_history_count _ _ L) as [Ho Hs]. split; [exact Ho|].
  rewrite Hs. destruct (Nat.even (List.length (moveHistory s))); simpl; lia.
Qed.

Lemma stones_match_history_witness :
  occupied (board (after (black_five ++ [Undo])))
  = List.length (moveHistory (after (black_five ++ [Undo]))) /\
  (Z.of_nat (stones BLACK (board (after (black_five ++ [Undo]))))
   - Z.of_nat (stones WHITE (board (after (black_five ++ [Undo])))) = 0 \/
   Z.of_nat (stones BLACK (board (after (black_five ++ [Undo]))))
   - Z.of_nat (stones WHITE (board (after (black_five ++ [Undo])))) = 1).
Proof.
  apply stones_match_history.
  apply (run_reachable (black_five ++ [Undo]) mounted);
    [exact reach_mounted | vm_compute; reflexivity].
Defined.

(** ** The draw that is never declared *)

(** The status DRAW is set in no reachable state: the handler asks
    [checkDraw] about the board from before the placement, on which the
    cell just played is still EMPTY. *)
Lemma draw_unreachable (s : State) : reachable s -> gameStatus s <> DRAW.
Proof.
  intros R. apply reachable_consistent in R. destruct R as (_ & _ & N & _).
  exact N.
Qed.

(** C1, evaluated on the code.  The 225 clicks of [full_game] fill the
    board without a win.  Before the last of them, (14, 13), the game is
    PLAYING and that cell is the one EMPTY cell left; the click is accepted
    and wins nothing; on the board it leaves, every cell is taken and
    [checkDraw] is true.  Yet the handler evaluates [checkDraw] on the
    board it was given, gets false, and leaves the status PLAYING with the
    turn passed to WHITE: the draw is not declared. *)
Theorem full_board_is_not_declared_a_draw :
  List.length full_game = 225%nat /\
  last_opt full_game = Some (CellClick 14 13) /\
  exists s0 s,
    run mounted (removelast full_game) = Some s0 /\
    gameStatus s0 = PLAYING /\
    occupied (board s0) = 224%nat /\
    board_get (board s0) 14 13 = Ret (Some EMPTY) /\
    checkWin (board s0) 14 13 (currentPlayer s0) = Ret false /\
    checkDraw (board s0) = Ret false /\
    handleCellClick s0 14 13 = Returned s /\
    run mounted full_game = Some s /\
    occupied (board s) = 225%nat /\
    checkWin (board s) 14 13 (currentPlayer s0) = Ret false /\
    checkDraw (board s) = Ret true /\
    gameStatus s = PLAYING /\
    currentPlayer s = WHITE /\
    showModal s = false.
Proof.
  split; [vm_compute; reflexivity|]. split; [vm_compute; reflexivity|].
  exists (after (removelast full_game)), (after full_game).
  repeat match goal with |- _ /\ _ => split end; vm_compute; reflexivity.
Qed.

(** * Further properties of the engine *)

(** ** The draw check, by itself *)

Lemma forallb_false_exists {A : Type} (f : A -> bool) (l : list A) :
  forallb f l = false -> exists x, In x l /\ f x = false.
Proof.
  induction l as [|a l IH]; simpl; [discriminate|].
  destruct (f a) eqn:E; simpl.
  - intros H. destruct (IH H) as (x & I & F). exists x. auto.
  - intros _. exists a. auto.
Qed.

Lemma Ret_inj {A : Type} (x y : A) : Ret x = Ret y -> x = y.
Proof. intros H. injection H as H. exact H. Qed.

Lemma checkDraw_false_empty (b : Board) :
  grid_shaped b -> checkDraw b = Ret false ->
  exists r c, in_grid r c = true /\ cell b r c = Some EMPTY.
Proof.
  intros G H. unfold checkDraw in H.
  rewrite (checkDraw_rows_pure _ _ G) in H by (intros i; apply In_indices).
  apply Ret_inj, forallb_false_exists in H.
  destruct H as (r & Ir & H). apply negb_false_iff, existsb_exists in H.
  destruct H as (c & Ic & H). apply strict_eq_true in H.
  exists r, c. split; [|exact H].
  apply in_grid_spec. split; apply In_indices; assumption.
Qed.

Lemma checkDraw_total (b : Board) :
  grid_shaped b -> checkDraw b = Ret true \/ checkDraw b = Ret false.
Proof.
  intros G. unfold checkDraw.
  rewrite (checkDraw_rows_pure _ _ G) by (intros i; apply In_indices).
  destruct (forallb _ indices); auto.
Qed.

(** X1. On a 15x15 board [checkDraw] returns, true exactly when no cell of
    the grid is EMPTY, and false exactly when one is. *)
Theorem checkDraw_spec (b : Board) :
  grid_shaped b ->
  (checkDraw b = Ret true <->
   forall r c, in_grid r c = true -> cell b r c <> Some EMPTY) /\
  (checkDraw b = Ret false <->
   exists r c, in_grid r c = true /\ cell b r c = Some EMPTY).
Proof.
  intros G. split; split.
  - intros T r c I E.
    rewrite (checkDraw_with_empty _ _ _ G I E) in T. discriminate.
  - intros H. destruct (checkDraw_total b G) as [T|F]; [exact T|].
    destruct (checkDraw_false_empty b G F) as (r & c & I & E).
    exfalso. exact (H r c I E).
  - exact (checkDraw_false_empty b G).
  - intros (r & c & I & E). exact (checkDraw_with_empty _ _ _ G I E).
Qed.

Lemma checkDraw_spec_witness :
  (checkDraw empty_board = Ret true <->
   forall r c, in_grid r c = true -> cell empty_board r c <> Some EMPTY) /\
  (checkDraw empty_board = Ret false <->
   exists r c, in_grid r c = true /\ cell empty_board r c = Some EMPTY).
Proof. apply (checkDraw_spec empty_board). exact grid_shaped_empty. Defined.

(** ** Pause, resume and the status text *)

(** X2. Pressing pause twice gives back the very state: [handlePauseResume]
    undoes itself, in every state. *)
Theorem pause_resume_twice (s : State) :
  handlePauseResume (handlePauseResume s) = s.
Proof.
  destruct s as [b p g h l sm mc em]. destruct g; reflexivity.
Qed.

(** X3. The pause button is disabled exactly in the states where
    [handlePauseResume] would do nothing; where it is enabled the press
    changes the status. *)
Theorem pause_disabled_iff_noop (s : State) :
  (pauseDisabled s = true <-> handlePauseResume s = s) /\
  (pauseDisabled s = false ->
   gameStatus (handlePauseResume s) <> gameStatus s).
Proof.
  destruct s as [b p g h l sm mc em].
  unfold pauseDisabled, handlePauseResume. simpl.
  destruct g; simpl; repeat split; try reflexivity; try discriminate;
    intros H; try discriminate H; try reflexivity.
Qed.

Lemma pause_disabled_iff_noop_witness :
  gameStatus (handlePauseResume mounted) <> gameStatus mounted.
Proof.
  apply (proj2 (pause_disabled_iff_noop mounted)). reflexivity.
Defined.

(** X4. The status line tells the statuses apart: two states show the same
    text only if they have the same status, and the text is never empty. *)
Theorem status_text_injective (s1 s2 : State) :
  (getGameStatusText s1 = getGameStatusText s2 -> gameStatus s1 = gameStatus s2)
  /\ getGameStatusText s1 <> EmptyString.
Proof.
  unfold getGameStatusText. split.
  - destruct (gameStatus s1), (gameStatus s2); intros H;
      try reflexivity; vm_compute in H; discriminate H.
  - destruct (gameStatus s1); discriminate.
Qed.

Lemma status_text_injective_witness :
  gameStatus mounted = gameStatus (after [CellClick 7 7]).
Proof.
  apply (proj1 (status_text_injective mounted (after [CellClick 7 7]))).
  reflexivity.
Defined.

(** ** An accepted click *)

Lemma cell_set_same (b nb : Board) (r c : Z) (v : PIECE_TYPE) :
  board_set b r c v = Stored nb -> cell nb r c = Some v.
Proof.
  intros S. apply board_set_Stored in S.
  destruct S as (rw & q & R & Q & ->).
  pose proof (index_Some_range _ _ _ R) as Rr.
  pose proof (index_Some_range _ _ _ Q) as Rc.
  unfold cell, index.
  destruct (0 <=? r) eqn:Er; [|apply Z.leb_gt in Er; lia].
  rewrite nth_error_list_set_eq by lia.
  destruct (0 <=? c) eqn:Ec; [|apply Z.leb_gt in Ec; lia].
  apply nth_error_list_set_eq. lia.
Qed.

Lemma cell_set_other (b nb : Board) (row col r c : Z) (v : PIECE_TYPE) :
  board_set b row col v = Stored nb -> (r, c) <> (row, col) ->
  cell nb r c = cell b r c.
Proof.
  intros S N. pose proof (board_get_set_other _ _ _ _ _ _ _ S N) as H.
  unfold board_get, cell in *.
  destruct (index nb r), (index b r); congruence.
Qed.

Lemma five_through_placed (b nb : Board) (row col : Z) (v p : PIECE_TYPE) :
  grid_shaped b -> board_set b row col v = Stored nb ->
  (five_through b row col p <-> five_through nb row col p).
Proof.
  intros G S. pose proof (board_set_shape _ _ _ _ _ G S) as G'.
  rewrite <- !wins_five_through.
  pose proof (checkWin_before_placement _ _ _ _ _ p S) as H.
  rewrite (checkWin_pure _ _ _ _ G), (checkWin_pure _ _ _ _ G') in H.
  apply Ret_inj in H. rewrite H. reflexivity.
Qed.

Lemma click_accepted_run (s : State) (row col : Z) (nb : Board) :
  grid_shaped (board s) -> gameStatus s = PLAYING ->
  board_get (board s) row col = Ret (Some EMPTY) ->
  board_set (board s) row col (currentPlayer s) = Stored nb ->
  handleCellClick s row col =
  Returned
    (if existsb (line_wins (board s) row col (currentPlayer s)) directions
     then mkState nb (currentPlayer s) (win_status (currentPlayer s))
                  (moveHistory s ++ [mkMove row col (currentPlayer s)])
                  (Some (row, col)) true
                  (mkModal GAME_OVER
                           (if piece_eqb (currentPlayer s) BLACK
                            then "黑方获胜！"%string else "白方获胜！"%string))
                  (errorMessage s)
     else mkState nb (other (currentPlayer s)) PLAYING
                  (moveHistory s ++ [mkMove row col (currentPlayer s)])
                  (Some (row, col)) (showModal s) (modalContent s)
                  (errorMessage s)).
Proof.
  intros G P E S. unfold handleCellClick. rewrite P, E, S. cbn [status_eqb negb strict_eq piece_eqb].
  pose proof (board_get_cell _ _ _ _ E) as C.
  pose proof (cell_in_grid _ _ _ _ G C) as I.
  rewrite (checkWin_pure _ _ _ _ G), (checkDraw_with_empty _ _ _ G I C).
  destruct (existsb _ directions); [reflexivity|].
  unfold setCurrentPlayer, setLastMove, setMoveHistory, setBoard. simpl.
  rewrite P. reflexivity.
Qed.



(** ** What the reachable states keep, besides [consistent] *)

Lemma calm_legal (h : list Move) (b : Board) : calm h b -> legal_history h b.
Proof.
  induction 1 as [|h b m b' C IH E T S W].
  - exact legal_nil.
  - exact (legal_snoc _ _ _ _ IH E T S).
Qed.

Lemma calm_snoc_inv (h : list Move) (m : Move) (b' : Board) :
  calm (h ++ [m]) b' ->
  exists b, calm h b /\
            board_get b (row m) (col m) = Ret (Some EMPTY) /\
            player m = turn (List.length h) /\
            board_set b (row m) (col m) (player m) = Stored b' /\
            checkWin b (row m) (col m) (player m) = Ret false.
Proof.
  intros C. inversion C as [E|h0 b m0 b0 C0 G T S W E].
  - destruct h; discriminate.
  - apply app_inj_tail in E. destruct E as [-> ->]. exists b. auto.
Qed.

Lemma handleUndo_run (s : State) (h : list Move) (m : Move) (nb : Board) :
  moveHistory s = h ++ [m] -> replay h empty_board = Stored nb ->
  handleUndo s =
  Returned (mkState nb (player m) PLAYING h (option_map spot (last_opt h))
                    false (modalContent s) (errorMessage s)).
Proof.
  intros E R. unfold handleUndo.
  rewrite E, last_opt_snoc, removelast_last, R. reflexivity.
Qed.

Lemma settled_mounted : settled mounted.
Proof.
  unfold settled. simpl. split; [reflexivity|]. split; [discriminate|].
  exact calm_nil.
Qed.

Lemma settled_notice (s : State) (e : string) :
  settled s -> settled (setErrorMessage s e).
Proof. intros H. exact H. Qed.

Lemma win_status_terminal (p : PIECE_TYPE) : terminal (win_status p) = true.
Proof. unfold win_status. destruct (piece_eqb p BLACK); reflexivity. Qed.

Lemma handleCellClick_settled (s s' : State) (rw cl : Z) :
  consistent s -> settled s ->
  committed (handleCellClick s rw cl) = Some s' -> settled s'.
Proof.
  intros (G & L & ND & T) K H. pose proof K as (KL & KM & KC).
  destruct (status_eqb (gameStatus s) PLAYING) eqn:P.
  2:{ unfold handleCellClick in H. rewrite P in H. cbn [negb] in H.
      injection H as <-. exact K. }
  apply status_eqb_eq in P.
  destruct (board_get (board s) rw cl) as [v|] eqn:E.
  2:{ unfold handleCellClick in H. rewrite P, E in H. cbn in H.
      injection H as <-. exact K. }
  destruct (strict_eq v EMPTY) eqn:V.
  2:{ unfold handleCellClick in H. rewrite P, E, V in H. cbn in H.
      injection H as <-. exact K. }
  apply strict_eq_true in V. subst v.
  destruct (board_get_set _ _ _ _ (currentPlayer s) E) as [nb S].
  rewrite (click_accepted_run s rw cl nb G P E S) in H.
  rewrite P in T, KM, KC. cbn [terminal] in T, KM, KC.
  destruct (existsb _ directions) eqn:W; injection H as <-;
    unfold settled;
    cbn [board moveHistory lastMove gameStatus currentPlayer showModal
         modalContent].
  - split; [rewrite last_opt_snoc; reflexivity|]. split.
    + intros _. split; [apply win_status_terminal|].
      unfold win_status. destruct (piece_eqb (currentPlayer s) BLACK);
        reflexivity.
    + rewrite win_status_terminal.
      exists (moveHistory s), (board s), (mkMove rw cl (currentPlayer s)).
      cbn [row col player].
      rewrite (checkWin_pure _ _ _ _ G), W. auto 10.
  - split; [rewrite last_opt_snoc; reflexivity|]. split.
    + intros M. destruct (KM M) as [X _]. discriminate X.
    + cbn [terminal].
      apply (calm_snoc _ (board s) (mkMove rw cl (currentPlayer s)));
        cbn [row col player]; auto.
      rewrite (checkWin_pure _ _ _ _ G), W. reflexivity.
Qed.

Lemma handleUndo_settled (s s' : State) :
  settled s -> committed (handleUndo s) = Some s' -> settled s'.
Proof.
  intros K H. pose proof K as (KL & KM & KC).
  destruct (last_opt (moveHistory s)) as [undone|] eqn:Lo.
  2:{ unfold handleUndo in H. rewrite Lo in H. injection H as <-. exact K. }
  apply last_opt_Some in Lo.
  assert (exists b, calm (removelast (moveHistory s)) b) as [b0 C0].
  { destruct (terminal (gameStatus s)).
    - destruct KC as (h & b & m & Eh & C & _). exists b.
      rewrite Eh, removelast_last. exact C.
    - rewrite Lo in KC. apply calm_snoc_inv in KC.
      destruct KC as (b & C & _). exists b. exact C. }
  rewrite (handleUndo_run s _ _ b0 Lo
             (legal_history_replay _ _ (calm_legal _ _ C0))) in H.
  injection H as <-. unfold settled. simpl.
  split; [reflexivity|]. split; [discriminate | exact C0].
Qed.

Lemma handlePauseResume_settled (s : State) :
  settled s -> settled (handlePauseResume s).
Proof.
  intros (KL & KM & KC). unfold handlePauseResume.
  destruct (gameStatus s) eqn:E; simpl; unfold settled; simpl;
    rewrite ?E; simpl; auto.
Qed.

Lemma step_settled (s s' : State) (e : event) :
  consistent s -> settled s -> committed (dispatch s e) = Some s' ->
  settled s'.
Proof.
  intros C K H. destruct e as [row col| | | | |]; simpl in H.
  - exact (handleCellClick_settled _ _ _ _ C K H).
  - exact (handleUndo_settled _ _ K H).
  - injection H as <-. exact (handlePauseResume_settled _ K).
  - injection H as <-. unfold settled. simpl.
    split; [reflexivity|]. split; [discriminate | exact calm_nil].
  - injection H as <-. destruct K as (KL & KM & KC).
    split; [exact KL|]. split; [discriminate | exact KC].
  - injection H as <-. exact K.
Qed.

Lemma reachable_settled (s : State) : reachable s -> settled s.
Proof.
  induction 1 as [|s e s' R IH H].
  - exact settled_mounted.
  - exact (step_settled _ _ _ (reachable_consistent _ R) IH H).
Qed.

Lemma turn_not_empty (n : nat) : turn n <> EMPTY.
Proof. unfold turn. destruct (Nat.even n); discriminate. Qed.

Lemma checkWin_five_through (b nb : Board) (r c : Z) (p : PIECE_TYPE) (t : bool) :
  grid_shaped b -> board_set b r c p = Stored nb ->
  checkWin b r c p = Ret t ->
  (t = true <-> five_through nb r c p).
Proof.
  intros G S W. rewrite (checkWin_pure _ _ _ _ G) in W. apply Ret_inj in W.
  rewrite <- (five_through_placed _ _ _ _ _ p G S), <- wins_five_through, W.
  reflexivity.
Qed.

(** X6. In every reachable state [lastMove] is the cell of the last move of
    the history (none when the history is empty), and that cell holds the
    stone of the player who made the move. *)
Theorem last_move_tracks_history (s : State) :
  reachable s ->
  lastMove s = option_map spot (last_opt (moveHistory s)) /\
  forall m, last_opt (moveHistory s) = Some m ->
            cell (board s) (row m) (col m) = Some (player m) /\
            player m <> EMPTY.
Proof.
  intros R. pose proof (reachable_settled _ R) as (KL & _).
  pose proof (reachable_consistent _ R) as (_ & L & _).
  split; [exact KL|]. intros m Lo. apply last_opt_Some in Lo.
  rewrite Lo in L. apply legal_history_snoc_inv in L.
  destruct L as (b & _ & T & S). split.
  - exact (cell_set_same _ _ _ _ _ S).
  - rewrite T. apply turn_not_empty.
Qed.

Lemma last_move_tracks_history_witness :
  lastMove (after black_five)
  = option_map spot (last_opt (moveHistory (after black_five))) /\
  forall m, last_opt (moveHistory (after black_five)) = Some m ->
            cell (board (after black_five)) (row m) (col m) = Some (player m) /\
            player m <> EMPTY.
Proof.
  apply last_move_tracks_history.
  apply (run_reachable black_five mounted);
    [exact reach_mounted | vm_compute; reflexivity].
Defined.

(** X7. In every reachable state the game-over modal is shown only after a
    win, and it names the winner: with BLACK_WIN its message is the one for
    BLACK, with WHITE_WIN the one for WHITE. *)
Theorem modal_names_winner (s : State) :
  reachable s -> showModal s = true ->
  (gameStatus s = BLACK_WIN /\
   modalContent s = mkModal GAME_OVER "黑方获胜！") \/
  (gameStatus s = WHITE_WIN /\
   modalContent s = mkModal GAME_OVER "白方获胜！").
Proof.
  intros R M. pose proof (reachable_settled _ R) as (_ & KM & _).
  pose proof (reachable_consistent _ R) as (_ & _ & ND & _).
  destruct (KM M) as [T C]. rewrite C.
  destruct (gameStatus s); try discriminate T; auto. congruence.
Qed.

Lemma modal_names_winner_witness :
  (gameStatus (after black_five) = BLACK_WIN /\
   modalContent (after black_five) = mkModal GAME_OVER "黑方获胜！") \/
  (gameStatus (after black_five) = WHITE_WIN /\
   modalContent (after black_five) = mkModal GAME_OVER "白方获胜！").
Proof.
  apply modal_names_winner.
  - apply (run_reachable black_five mounted);
      [exact reach_mounted | vm_compute; reflexivity].
  - vm_compute. reflexivity.
Defined.

(** X8. In every reachable state the game is over exactly when the last
    move of the history stands in a line of five of its colour on the
    board, and then the status is the win of that move's player; with an
    empty history the game is not over. *)
Theorem game_over_iff_last_move_made_five (s : State) :
  reachable s ->
  match last_opt (moveHistory s) with
  | None => terminal (gameStatus s) = false
  | Some m =>
      (terminal (gameStatus s) = true <->
       five_through (board s) (row m) (col m) (player m)) /\
      (terminal (gameStatus s) = true -> gameStatus s = win_status (player m))
  end.
Proof.
  intros R. pose proof (reachable_settled _ R) as (_ & _ & KC).
  pose proof (reachable_consistent _ R) as (_ & _ & _ & T).
  destruct (last_opt (moveHistory s)) as [m|] eqn:Lo.
  - destruct (terminal (gameStatus s)).
    + destruct KC as (h & b & m0 & Eh & C & _ & _ & S & W & St).
      rewrite Eh, last_opt_snoc in Lo. injection Lo as <-.
      pose proof (legal_history_shape _ _ (calm_legal _ _ C)) as G.
      split; [|intros _; exact St].
      rewrite <- (checkWin_five_through _ _ _ _ _ _ G S W). tauto.
    + apply last_opt_Some in Lo. rewrite Lo in KC.
      apply calm_snoc_inv in KC. destruct KC as (b & C & _ & _ & S & W).
      pose proof (legal_history_shape _ _ (calm_legal _ _ C)) as G.
      split; [|discriminate].
      rewrite <- (checkWin_five_through _ _ _ _ _ _ G S W). tauto.
  - destruct (terminal (gameStatus s)); [|reflexivity].
    destruct T as (m & X & _). discriminate X.
Qed.

Lemma game_over_iff_last_move_made_five_witness :
  match last_opt (moveHistory (after black_five)) with
  | None => terminal (gameStatus (after black_five)) = false
  | Some m =>
      (terminal (gameStatus (after black_five)) = true <->
       five_through (board (after black_five)) (row m) (col m) (player m)) /\
      (terminal (gameStatus (after black_five)) = true ->
       gameStatus (after black_five) = win_status (player m))
  end.
Proof.
  apply game_over_iff_last_move_made_five.
  apply (run_reachable black_five mounted);
    [exact reach_mounted | vm_compute; reflexivity].
Defined.

(** ** Five in a row anywhere on the board *)

Lemma hole_five (b : Board) (row col dx dy j : Z) (p : PIECE_TYPE) :
  In (dx, dy) directions -> 0 <= j <= 4 ->
  (forall i, 0 <= i <= 4 -> i <> j ->
             stone_at b (row + (i - j) * dx) (col + (i - j) * dy) p) ->
  five_through b row col p.
Proof.
  intros D Hj H. destruct (leaves_grid row col dx dy D) as [OffF OffB].
  destruct (stone_run_exists b p (fun i => row + i * dx) (fun i => col + i * dy)
              (15 + Z.abs row + Z.abs col)) as [fwd F]; [lia | exact OffF |].
  destruct (stone_run_exists b p (fun i => row - i * dx) (fun i => col - i * dy)
              (15 + Z.abs row + Z.abs col)) as [bwd B]; [lia | exact OffB |].
  assert (4 - j <= fwd) as Lf.
  { destruct F as (F0 & _ & FS).
    destruct (Z_le_gt_dec (4 - j) fwd) as [|G]; [assumption|].
    exfalso. apply FS. cbv beta.
    replace (fwd + 1) with (j + fwd + 1 - j) by lia. apply H; lia. }
  assert (j <= bwd) as Lb.
  { destruct B as (B0 & _ & BS).
    destruct (Z_le_gt_dec j bwd) as [|G]; [assumption|].
    exfalso. apply BS. cbv beta.
    replace (row - (bwd + 1) * dx) with (row + (j - bwd - 1 - j) * dx) by ring.
    replace (col - (bwd + 1) * dy) with (col + (j - bwd - 1 - j) * dy) by ring.
    apply H; lia. }
  destruct (directions_along _ D) as [o Eo].
  exists o, (1 + fwd + bwd). rewrite Eo. split; [|lia].
  exists fwd, bwd. auto.
Qed.

Lemma five_through_line (b : Board) (row col : Z) (p : PIECE_TYPE) :
  stone_at b row col p -> five_through b row col p ->
  exists r c o, five_in_line b p r c (fst (along o)) (snd (along o)).
Proof.
  intros Here (o & k & (fwd & bwd & F & B & ->) & K).
  destruct F as (F0 & FA & _). destruct B as (B0 & BA & _).
  set (dx := fst (along o)) in *. set (dy := snd (along o)) in *.
  exists (row - Z.min bwd 4 * dx), (col - Z.min bwd 4 * dy), o.
  fold dx dy. intros i Hi.
  destruct (Z.lt_trichotomy i (Z.min bwd 4)) as [L|[E|L]].
  - replace (row - Z.min bwd 4 * dx + i * dx)
      with (row - (Z.min bwd 4 - i) * dx) by ring.
    replace (col - Z.min bwd 4 * dy + i * dy)
      with (col - (Z.min bwd 4 - i) * dy) by ring.
    apply (BA (Z.min bwd 4 - i)). lia.
  - replace (row - Z.min bwd 4 * dx + i * dx) with row by (rewrite E; ring).
    replace (col - Z.min bwd 4 * dy + i * dy) with col by (rewrite E; ring).
    exact Here.
  - replace (row - Z.min bwd 4 * dx + i * dx)
      with (row + (i - Z.min bwd 4) * dx) by ring.
    replace (col - Z.min bwd 4 * dy + i * dy)
      with (col + (i - Z.min bwd 4) * dy) by ring.
    apply (FA (i - Z.min bwd 4)). lia.
Qed.

Lemma cell_empty_board (r c : Z) (q : PIECE_TYPE) :
  cell empty_board r c = Some q -> q = EMPTY.
Proof.
  unfold cell, index, empty_board.
  destruct (0 <=? r); [|discriminate].
  destruct (nth_error _ (Z.to_nat r)) as [rw|] eqn:R; [|discriminate].
  apply nth_error_In, repeat_spec in R. subst rw.
  destruct (0 <=? c); [|discriminate].
  intros Q. apply nth_error_In, repeat_spec in Q. exact Q.
Qed.

Lemma stone_at_set_other (b nb : Board) (row col r c : Z) (v p : PIECE_TYPE) :
  board_set b row col v = Stored nb -> (r, c) <> (row, col) ->
  stone_at nb r c p -> stone_at b r c p.
Proof.
  intros S N [I C]. split; [exact I|].
  rewrite <- (cell_set_other _ _ _ _ _ _ _ S N). exact C.
Qed.

Lemma among_five (P : Z -> Prop) :
  (forall i, {P i} + {~ P i}) ->
  (exists j, 0 <= j < 5 /\ P j) \/ (forall i, 0 <= i < 5 -> ~ P i).
Proof.
  intros dec.
  destruct (dec 0) as [|N0]; [left; exists 0; split; [lia|assumption]|].
  destruct (dec 1) as [|N1]; [left; exists 1; split; [lia|assumption]|].
  destruct (dec 2) as [|N2]; [left; exists 2; split; [lia|assumption]|].
  destruct (dec 3) as [|N3]; [left; exists 3; split; [lia|assumption]|].
  destruct (dec 4) as [|N4]; [left; exists 4; split; [lia|assumption]|].
  right. intros i Hi.
  assert (i = 0 \/ i = 1 \/ i = 2 \/ i = 3 \/ i = 4) as C by lia.
  destruct C as [->|[->|[->|[->| ->]]]]; assumption.
Qed.

Lemma spot_eq_dec (a b : Z * Z) : {a = b} + {a <> b}.
Proof. decide equality; apply Z.eq_dec. Qed.

(** A board built without a winning move holds no five in a row. *)
Lemma calm_no_five (h : list Move) (b : Board) :
  calm h b ->
  forall p r c dx dy,
    p <> EMPTY -> In (dx, dy) directions -> ~ five_in_line b p r c dx dy.
Proof.
  induction 1 as [|h b m b' C IH E T S W]; intros p r c dx dy Np D F.
  - destruct (F 0) as [_ X]; [lia|]. apply cell_empty_board in X.
    contradiction.
  - pose proof (legal_history_shape _ _ (calm_legal _ _ C)) as G.
    destruct (among_five (fun j => (r + j * dx, c + j * dy) = (row m, col m)))
      as [(j & Hj & Ej)|None].
    { intros i. apply spot_eq_dec. }
    + injection Ej as Er Ec.
      assert (p = player m) as ->.
      { destruct (F j Hj) as [_ X]. rewrite Er, Ec in X.
        rewrite (cell_set_same _ _ _ _ _ S) in X. congruence. }
      assert (five_through b (row m) (col m) (player m)) as Five.
      { apply (hole_five b (row m) (col m) dx dy j); [exact D | lia |].
        intros i Hi Nij.
        replace (row m + (i - j) * dx) with (r + i * dx) by (rewrite <- Er; ring).
        replace (col m + (i - j) * dy) with (c + i * dy) by (rewrite <- Ec; ring).
        apply (stone_at_set_other _ _ _ _ _ _ _ _ S); [|apply F; lia].
        intros X. injection X as Xr Xc.
        apply (directions_nonzero _ D).
        assert ((i - j) * dx = 0) as Zx by lia.
        assert ((i - j) * dy = 0) as Zy by lia.
        apply Z.mul_eq_0 in Zx, Zy. f_equal; lia. }
      apply wins_five_through in Five.
      rewrite (checkWin_pure _ _ _ _ G), Five in W. discriminate W.
    + apply (IH p r c dx dy Np D). intros i Hi.
      apply (stone_at_set_other _ _ _ _ _ _ _ _ S); [|apply F; exact Hi].
      exact (None i Hi).
Qed.

(** X9. In every reachable state the game is over exactly when the board
    holds five stones of one colour in a row, from some cell on, along a
    row, a column or one of the two diagonals: checking the lines through
    the newest stone only misses no line of five, and a game that is not
    over has none. *)
Theorem game_over_iff_five_on_board (s : State) :
  reachable s ->
  (terminal (gameStatus s) = true <->
   exists (p : PIECE_TYPE) (r c : Z) (o : orientation),
     p <> EMPTY /\
     five_in_line (board s) p r c (fst (along o)) (snd (along o))).
Proof.
  intros R. pose proof (reachable_settled _ R) as (_ & _ & KC).
  pose proof (reachable_consistent _ R) as (G' & _).
  destruct (terminal (gameStatus s)).
  - split; [intros _|reflexivity].
    destruct KC as (h & b & m & _ & C & _ & T & S & W & _).
    pose proof (legal_history_shape _ _ (calm_legal _ _ C)) as G.
    assert (five_through (board s) (row m) (col m) (player m)) as Five.
    { apply (checkWin_five_through _ _ _ _ _ _ G S W). reflexivity. }
    assert (stone_at (board s) (row m) (col m) (player m)) as Here.
    { pose proof (cell_set_same _ _ _ _ _ S) as X.
      split; [|exact X].
      apply on_board_in_grid. exact (cell_in_grid _ _ _ _ G' X). }
    destruct (five_through_line _ _ _ _ Here Five) as (r & c & o & F).
    exists (player m), r, c, o. split; [|exact F].
    rewrite T. apply turn_not_empty.
  - split; [discriminate|].
    intros (p & r & c & o & Np & F).
    exfalso.
    exact (calm_no_five _ _ KC p r c _ _ Np (along_in_directions o) F).
Qed.

Lemma game_over_iff_five_on_board_witness :
  terminal (gameStatus (after black_five)) = true <->
  exists (p : PIECE_TYPE) (r c : Z) (o : orientation),
    p <> EMPTY /\
    five_in_line (board (after black_five)) p r c
                 (fst (along o)) (snd (along o)).
Proof.
  apply game_over_iff_five_on_board.
  apply (run_reachable black_five mounted);
    [exact reach_mounted | vm_compute; reflexivity].
Defined.

(** ** Click, then undo *)

(** X10. In a reachable PLAYING state, an accepted click followed by undo
    gives back the game: the board, the history, the status, the current
    player and the last move are those from before the click, also when
    the click had won the game, and the modal is closed. *)
Theorem click_then_undo (s : State) (row col : Z) :
  reachable s -> gameStatus s = PLAYING ->
  board_get (board s) row col = Ret (Some EMPTY) ->
  exists s1 s2,
    handleCellClick s row col = Returned s1 /\
    handleUndo s1 = Returned s2 /\
    same_game s s2 /\ showModal s2 = false.
Proof.
  intros R P E.
  pose proof (reachable_consistent _ R) as (G & L & _).
  pose proof (reachable_settled _ R) as (KL & _).
  destruct (board_get_set _ _ _ _ (currentPlayer s) E) as [nb S].
  pose proof (click_accepted_run s row col nb G P E S) as C.
  eexists. eexists. split; [exact C|].
  split.
  - apply (handleUndo_run _ (moveHistory s) (mkMove row col (currentPlayer s))
                          (board s)).
    + destruct (existsb _ directions); reflexivity.
    + exact (legal_history_replay _ _ L).
  - split; [|reflexivity]. unfold same_game. simpl. rewrite P, KL. auto.
Qed.

Lemma click_then_undo_witness :
  exists s1 s2,
    handleCellClick (after (removelast black_five)) 7 7 = Returned s1 /\
    handleUndo s1 = Returned s2 /\
    same_game (after (removelast black_five)) s2 /\ showModal s2 = false.
Proof.
  apply click_then_undo.
  - apply (run_reachable (removelast black_five) mounted);
      [exact reach_mounted | vm_compute; reflexivity].
  - vm_compute. reflexivity.
  - vm_compute. reflexivity.
Defined.

(** ** Undo, all the way *)





(** ** Whose turn it is *)

Lemma legal_history_turns (h : list Move) (b : Board) :
  legal_history h b ->
  forall n m, nth_error h n = Some m -> player m = turn n.
Proof.
  induction 1 as [|h b m0 b' L IH E T S]; intros n m H.
  - destruct n; discriminate.
  - rewrite nth_error_app in H.
    destruct (n <? List.length h)%nat eqn:Ln.
    + exact (IH n m H).
    + apply Nat.ltb_ge in Ln.
      destruct (n - List.length h)%nat as [|k] eqn:D; simpl in H.
      * injection H as <-. replace n with (List.length h) by lia. exact T.
      * destruct k; discriminate.
Qed.

(** X12. In every reachable state the moves of the history alternate,
    BLACK first: the move number n (from 0) is BLACK's when n is even and
    WHITE's when n is odd.  While the game is not over the current player
    is the one whose move comes next, and once it is over the current
    player is the one who made the last move. *)
Theorem turns_alternate (s : State) :
  reachable s ->
  (forall n m, nth_error (moveHistory s) n = Some m -> player m = turn n) /\
  (terminal (gameStatus s) = false ->
   currentPlayer s = turn (List.length (moveHistory s))) /\
  (terminal (gameStatus s) = true ->
   exists m, last_opt (moveHistory s) = Some m /\ currentPlayer s = player m).
Proof.
  intros R. pose proof (reachable_consistent _ R) as (_ & L & _ & T).
  split; [exact (legal_history_turns _ _ L)|].
  destruct (terminal (gameStatus s)); split; intros X;
    try discriminate X; exact T.
Qed.

Lemma turns_alternate_witness :
  (forall n m, nth_error (moveHistory (after black_five)) n = Some m ->
               player m = turn n) /\
  (terminal (gameStatus (after black_five)) = false ->
   currentPlayer (after black_five)
   = turn (List.length (moveHistory (after black_five)))) /\
  (terminal (gameStatus (after black_five)) = true ->
   exists m, last_opt (moveHistory (after black_five)) = Some m /\
             currentPlayer (after black_five) = player m).
Proof.
  apply turns_alternate.
  apply (run_reachable black_five mounted);
    [exact reach_mounted | vm_compute; reflexivity].
Defined.

(** ** The board is the history *)

Lemma played_at_snoc (h : list Move) (m : Move) (r c : Z) :
  played_at (h ++ [m]) r c =
  if (row m =? r) && (col m =? c) then Some (player m) else played_at h r c.
Proof.
  induction h as [|x h IH]; simpl.
  - destruct ((row m =? r) && (col m =? c)); reflexivity.
  - rewrite IH. destruct ((row m =? r) && (col m =? c)); reflexivity.
Qed.

Lemma at_spot (m : Move) (r c : Z) :
  (row m =? r) && (col m =? c) = true <-> (r, c) = (row m, col m).
Proof.
  rewrite andb_true_iff, !Z.eqb_eq. split.
  - intros [-> ->]. reflexivity.
  - intros H. injection H as -> ->. auto.
Qed.

Lemma played_at_Some (h : list Move) (r c : Z) (p : PIECE_TYPE) :
  played_at h r c = Some p ->
  exists m, In m h /\ spot m = (r, c) /\ player m = p.
Proof.
  induction h as [|x h IH]; simpl; [discriminate|].
  destruct (played_at h r c) as [q|].
  - intros H. destruct (IH H) as (m & I & E). exists m. auto.
  - destruct ((row x =? r) && (col x =? c)) eqn:A; [|discriminate].
    intros H. injection H as <-. apply at_spot in A. exists x.
    unfold spot. auto.
Qed.

Lemma played_at_In (h : list Move) (m : Move) :
  In m h -> exists p, played_at h (row m) (col m) = Some p.
Proof.
  induction h as [|x h IH]; simpl; [contradiction|].
  intros [->|I].
  - destruct (played_at h (row m) (col m)); [eauto|].
    rewrite !Z.eqb_refl. simpl. eauto.
  - destruct (IH I) as [p ->]. eauto.
Qed.

Lemma legal_history_cells (h : list Move) (b : Board) :
  legal_history h b ->
  forall r c,
    cell b r c = match played_at h r c with
                 | Some p => Some p
                 | None => cell empty_board r c
                 end.
Proof.
  induction 1 as [|h b m b' L IH E T S]; intros r c; [reflexivity|].
  rewrite played_at_snoc.
  destruct ((row m =? r) && (col m =? c)) eqn:A.
  - apply at_spot in A. injection A as -> ->.
    exact (cell_set_same _ _ _ _ _ S).
  - rewrite <- IH. apply (cell_set_other _ _ _ _ _ _ _ S).
    intros X. apply at_spot in X. congruence.
Qed.

Lemma legal_history_players (h : list Move) (b : Board) (m : Move) :
  legal_history h b -> In m h -> player m <> EMPTY.
Proof.
  intros L I. apply In_nth_error in I. destruct I as [n I].
  rewrite (legal_history_turns _ _ L n m I). apply turn_not_empty.
Qed.

Lemma cell_on_grid (b : Board) (r c : Z) :
  grid_shaped b -> in_grid r c = true -> exists q, cell b r c = Some q.
Proof.
  intros G H. apply in_grid_spec in H. destruct H as [Hr Hc].
  destruct (grid_row b r G Hr) as (rw & E & L).
  destruct (index_in_range rw c) as [q Q].
  { rewrite L. unfold BOARD_SIZE in *. lia. }
  exists q. unfold cell. rewrite E. exact Q.
Qed.

(** X13. In every reachable state the board is the picture of the history:
    a cell of the grid holds the colour of the move that went there, and is
    EMPTY when no move of the history did. *)
Theorem board_shows_history (s : State) (r c : Z) :
  reachable s -> in_grid r c = true ->
  cell (board s) r c
  = Some (match played_at (moveHistory s) r c with
          | Some p => p
          | None => EMPTY
          end).
Proof.
  intros R I. pose proof (reachable_consistent _ R) as (_ & L & _).
  rewrite (legal_history_cells _ _ L).
  destruct (played_at (moveHistory s) r c); [reflexivity|].
  destruct (cell_on_grid _ _ _ grid_shaped_empty I) as [q Q].
  rewrite Q. f_equal. exact (cell_empty_board _ _ _ Q).
Qed.

Lemma board_shows_history_witness :
  cell (board (after black_five)) 7 5
  = Some (match played_at (moveHistory (after black_five)) 7 5 with
          | Some p => p
          | None => EMPTY
          end).
Proof.
  apply board_shows_history; [|reflexivity].
  apply (run_reachable black_five mounted);
    [exact reach_mounted | vm_compute; reflexivity].
Defined.

Lemma count_cells_bound (f : PIECE_TYPE -> bool) (b : Board) (k : nat) :
  Forall (fun r => List.length r = k) b ->
  (count_cells f b <= k * List.length b)%nat.
Proof.
  unfold count_cells. induction 1 as [|r b Hr Hb IH]; simpl; [lia|].
  pose proof (filter_length_le f r). lia.
Qed.

Lemma legal_history_spots (h : list Move) (b : Board) :
  legal_history h b -> NoDup (map spot h) /\ Forall on_grid h.
Proof.
  induction 1 as [|h b m b' L [IHn IHg] E T S].
  - split; constructor.
  - pose proof (legal_history_shape _ _ L) as G.
    apply board_get_cell in E. split.
    + rewrite map_app. apply NoDup_app; [exact IHn | repeat constructor; auto |].
      intros a Ia [<-|[]]. apply in_map_iff in Ia.
      destruct Ia as (x & Ex & Ix).
      destruct (played_at_In h x Ix) as [p Hp].
      pose proof (legal_history_cells _ _ L (row x) (col x)) as C.
      rewrite Hp in C. apply played_at_Some in Hp.
      destruct Hp as (y & Iy & _ & <-).
      unfold spot in Ex. injection Ex as Er Ec. rewrite Er, Ec, E in C.
      injection C as C. symmetry in C.
      exact (legal_history_players _ _ _ L Iy C).
    + apply Forall_app. split; [exact IHg|]. constructor; [|constructor].
      exact (cell_in_grid _ _ _ _ G E).
Qed.

(** X14. In every reachable state no two moves of the history went to the
    same cell, every move is on the grid, and the history holds at most 225
    moves. *)
Theorem history_cells_distinct (s : State) :
  reachable s ->
  NoDup (map spot (moveHistory s)) /\
  Forall on_grid (moveHistory s) /\
  (List.length (moveHistory s) <= 225)%nat.
Proof.
  intros R. pose proof (reachable_consistent _ R) as ((Gl & Gr) & L & _).
  destruct (legal_history_spots _ _ L) as [N F].
  split; [exact N|]. split; [exact F|].
  rewrite <- (proj1 (legal_history_count _ _ L)). unfold occupied.
  pose proof (count_cells_bound (fun q => negb (piece_eqb q EMPTY)) _ _ Gr) as B.
  rewrite Gl in B. exact B.
Qed.

Lemma history_cells_distinct_witness :
  NoDup (map spot (moveHistory (after black_five))) /\
  Forall on_grid (moveHistory (after black_five)) /\
  (List.length (moveHistory (after black_five)) <= 225)%nat.
Proof.
  apply history_cells_distinct.
  apply (run_reachable black_five mounted);
    [exact reach_mounted | vm_compute; reflexivity].
Defined.

(** ** A game that is paused or over *)

(** X15. While the status is not PLAYING, the game (board, history, status,
    current player, last move) is changed by undo and by new game only, and
    by the pause button when the game is PAUSED: clicks on the board, a
    press of the pause button after the end, closing the modal and the
    clearing of the notice leave it as it is. *)
Theorem only_undo_and_new_game_leave (s s' : State) (e : event) :
  gameStatus s <> PLAYING ->
  committed (dispatch s e) = Some s' ->
  e <> Undo -> e <> NewGame ->
  (e = PauseResume -> gameStatus s <> PAUSED) ->
  same_game s s'.
Proof.
  intros NP H NU NN NR.
  destruct e as [row col| | | | |]; simpl in H; try congruence.
  - unfold handleCellClick in H.
    destruct (status_eqb (gameStatus s) PLAYING) eqn:P.
    + apply status_eqb_eq in P. contradiction.
    + simpl in H. injection H as <-. apply same_game_notice.
  - injection H as <-. specialize (NR eq_refl). unfold handlePauseResume.
    destruct (gameStatus s); try contradiction; apply same_game_refl.
  - injection H as <-. repeat split.
  - injection H as <-. repeat split.
Qed.

Lemma only_undo_and_new_game_leave_witness :
  same_game paused_with_stone
            (setErrorMessage paused_with_stone MSG_NOT_PLAYING).
Proof.
  refine (only_undo_and_new_game_leave
            paused_with_stone
            (setErrorMessage paused_with_stone MSG_NOT_PLAYING)
            (CellClick 0 5) _ _ _ _ _).
  - vm_compute. discriminate.
  - vm_compute. reflexivity.
  - discriminate.
  - discriminate.
  - discriminate.
Defined.

(** ** Handlers that return *)

Lemma click_on_row_returns (s : State) (row col : Z) :
  grid_shaped (board s) -> 0 <= row < BOARD_SIZE ->
  exists s', handleCellClick s row col = Returned s'.
Proof.
  intros G Hr.
  destruct (status_eqb (gameStatus s) PLAYING) eqn:P.
  2:{ unfold handleCellClick. rewrite P. simpl. eauto. }
  apply status_eqb_eq in P.
  pose proof (grid_get_row _ _ col G Hr) as E.
  destruct (strict_eq (cell (board s) row col) EMPTY) eqn:V.
  - apply strict_eq_true in V. rewrite V in E.
    destruct (board_get_set _ _ _ _ (currentPlayer s) E) as [nb S].
    rewrite (click_accepted_run s row col nb G P E S). eauto.
  - unfold handleCellClick. rewrite P, E. simpl. rewrite V. simpl. eauto.
Qed.

Lemma undo_returns (s : State) :
  legal_history (moveHistory s) (board s) ->
  exists s', handleUndo s = Returned s' /\
             forall m, last_opt (moveHistory s) = Some m ->
                       moveHistory s = moveHistory s' ++ [m] /\
                       gameStatus s' = PLAYING /\
                       errorMessage s' = errorMessage s.
Proof.
  intros L. destruct (last_opt (moveHistory s)) as [m|] eqn:Lo.
  - pose proof (last_opt_Some _ _ Lo) as E. rewrite E in L.
    apply legal_history_snoc_inv in L. destruct L as (b & L & _).
    rewrite (handleUndo_run s _ _ b E (legal_history_replay _ _ L)).
    eexists. split; [reflexivity|]. intros m' X. injection X as <-.
    simpl. auto.
  - unfold handleUndo. rewrite Lo. eexists. split; [reflexivity|].
    intros m X. discriminate X.
Qed.

Lemma click_returns_iff (s : State) (row col : Z) :
  grid_shaped (board s) ->
  (exists s', handleCellClick s row col = Returned s') <->
  (gameStatus s <> PLAYING \/ 0 <= row < BOARD_SIZE).
Proof.
  intros G. split.
  - intros (s' & H).
    destruct (status_eqb (gameStatus s) PLAYING) eqn:P.
    + right. apply status_eqb_eq in P.
      destruct (Z_le_dec 0 row) as [A|A];
        [destruct (Z_lt_dec row BOARD_SIZE) as [B|B]; [lia|]|];
        exfalso; unfold handleCellClick in H; rewrite P in H;
        unfold board_get in H;
        rewrite (grid_no_row _ row G) in H by lia; discriminate H.
    + left. intros X. rewrite X in P. discriminate P.
  - intros [N|Hr].
    + unfold handleCellClick.
      destruct (status_eqb (gameStatus s) PLAYING) eqn:P.
      * apply status_eqb_eq in P. contradiction.
      * simpl. eauto.
    + exact (click_on_row_returns s row col G Hr).
Qed.

(** X17. In every reachable state an undo button that is not disabled
    undoes: the handler returns a state whose history is the old one
    without its last move, with status PLAYING, and posts no notice. *)
Theorem enabled_undo_undoes (s : State) :
  reachable s -> undoDisabled s = false ->
  exists s' m,
    handleUndo s = Returned s' /\
    moveHistory s = moveHistory s' ++ [m] /\
    gameStatus s' = PLAYING /\
    errorMessage s' = errorMessage s.
Proof.
  intros R D. pose proof (reachable_consistent _ R) as (_ & L & _).
  destruct (undo_returns s L) as (s' & H & U).
  unfold undoDisabled in D. apply orb_false_iff in D. destruct D as [D _].
  destruct (last_opt (moveHistory s)) as [m|] eqn:Lo.
  - exists s', m. destruct (U m eq_refl) as (A & B & C). auto.
  - unfold last_opt in Lo. destruct (rev (moveHistory s)) eqn:V; [|discriminate].
    apply (f_equal (@List.length Move)) in V. rewrite length_rev in V.
    rewrite V in D. discriminate D.
Qed.

Lemma enabled_undo_undoes_witness :
  exists s' m,
    handleUndo (after black_five) = Returned s' /\
    moveHistory (after black_five) = moveHistory s' ++ [m] /\
    gameStatus s' = PLAYING /\
    errorMessage s' = errorMessage (after black_five).
Proof.
  apply enabled_undo_undoes.
  - apply (run_reachable black_five mounted);
      [exact reach_mounted | vm_compute; reflexivity].
  - vm_compute. reflexivity.
Defined.

(** ** The rendered board *)

Lemma distinctb_NoDup {A : Type} (eqb : A -> A -> bool) (l : list A) :
  (forall a b, eqb a b = true <-> a = b) ->
  distinctb eqb l = true -> NoDup l.
Proof.
  intros E. induction l as [|x t IH]; simpl; intros H; constructor.
  - apply andb_true_iff in H. destruct H as [H _].
    apply negb_true_iff in H. intros I.
    assert (existsb (eqb x) t = true) as X; [|congruence].
    apply existsb_exists. exists x. split; [exact I | apply E; reflexivity].
  - apply andb_true_iff in H. destruct H as [_ H]. exact (IH H).
Qed.

Lemma spot_eqb_eq (a b : Z * Z) : spot_eqb a b = true <-> a = b.
Proof.
  destruct a as [a1 a2], b as [b1 b2]. unfold spot_eqb. simpl.
  rewrite andb_true_iff, !Z.eqb_eq. split.
  - intros [-> ->]. reflexivity.
  - intros H. injection H as -> ->. auto.
Qed.

Lemma NoDup_grid_cells : NoDup grid_cells.
Proof.
  apply (distinctb_NoDup spot_eqb); [exact spot_eqb_eq|].
  vm_compute. reflexivity.
Qed.

Lemma In_grid_cells (r c : Z) : In (r, c) grid_cells <-> in_grid r c = true.
Proof.
  unfold grid_cells. rewrite in_flat_map, in_grid_spec. split.
  - intros (x & Ix & H). apply in_map_iff in H. destruct H as (y & E & Iy).
    injection E as <- <-. split; apply In_indices; assumption.
  - intros [Hr Hc]. exists r. split; [apply In_indices; exact Hr|].
    apply in_map_iff. exists c. split; [reflexivity|].
    apply In_indices. exact Hc.
Qed.

Lemma map_flat_map {A B C : Type} (f : B -> C) (g : A -> list B) (l : list A) :
  map f (flat_map g l) = flat_map (fun x => map f (g x)) l.
Proof.
  induction l as [|x l IH]; simpl; [reflexivity|].
  rewrite map_app, IH. reflexivity.
Qed.

Lemma renderCells_cols_pure (s : State) (row : Z) (cols : list Z)
      (cells : list CellView) :
  grid_shaped (board s) -> 0 <= row < BOARD_SIZE ->
  renderCells_cols s row cols cells
  = Ret (cells ++ map (fun c => cellElement s (cell (board s) row c) row c) cols).
Proof.
  intros G Hr. revert cells.
  induction cols as [|c cols IH]; intros cells; cbn [renderCells_cols map].
  - rewrite app_nil_r. reflexivity.
  - unfold cellView. rewrite (grid_get_row _ _ _ G Hr). cbn [bind].
    rewrite IH, <- app_assoc. reflexivity.
Qed.

Lemma renderCells_rows_pure (s : State) (rows : list Z)
      (cells : list CellView) :
  grid_shaped (board s) -> (forall r, In r rows -> 0 <= r < BOARD_SIZE) ->
  renderCells_rows s rows cells
  = Ret (cells ++
         flat_map (fun r =>
                     map (fun c => cellElement s (cell (board s) r c) r c)
                         indices) rows).
Proof.
  intros G. revert cells.
  induction rows as [|r rows IH]; intros cells H;
    cbn [renderCells_rows flat_map].
  - rewrite app_nil_r. reflexivity.
  - rewrite (renderCells_cols_pure _ _ _ _ G (H r (or_introl eq_refl))).
    cbn [bind]. rewrite IH, <- app_assoc; [reflexivity|].
    intros k Hk. apply H. right. exact Hk.
Qed.

Lemma renderCells_pure (s : State) :
  grid_shaped (board s) -> renderCells s = Ret (cellsOf s).
Proof.
  intros G. unfold renderCells.
  rewrite (renderCells_rows_pure _ _ _ G) by (intros r; apply In_indices).
  unfold cellsOf, grid_cells. rewrite map_flat_map. cbn [app].
  f_equal; try (apply flat_map_ext; intros r; rewrite map_map; reflexivity).
Qed.

Lemma onClick_cellsOf (s : State) :
  map onClick (cellsOf s)
  = map (fun rc => CellClick (fst rc) (snd rc)) grid_cells.
Proof. unfold cellsOf. rewrite map_map. reflexivity. Qed.

Lemma In_onClick_cellsOf (s : State) (r c : Z) :
  In (CellClick r c) (map onClick (cellsOf s)) <-> in_grid r c = true.
Proof.
  rewrite onClick_cellsOf, <- In_grid_cells, in_map_iff. split.
  - intros ([x y] & E & I). simpl in E. injection E as -> ->. exact I.
  - intros I. exists (r, c). auto.
Qed.

(** X18. On a 15x15 board [renderCells] returns 225 cells; the clicks they
    are wired to are exactly the clicks on the cells of the grid, so the
    rendered board never sends coordinates off the grid; and no two cells
    have the same key. *)
Theorem rendered_cells (s : State) :
  grid_shaped (board s) ->
  exists cells,
    renderCells s = Ret cells /\
    List.length cells = 225%nat /\
    (forall e, In e (map onClick cells) <->
               exists r c, e = CellClick r c /\ in_grid r c = true) /\
    NoDup (map key cells).
Proof.
  intros G. exists (cellsOf s). split; [exact (renderCells_pure s G)|].
  split; [unfold cellsOf; rewrite length_map; vm_compute; reflexivity|].
  split.
  - intros e. split.
    + intros I. pose proof I as I'. rewrite onClick_cellsOf in I'.
      apply in_map_iff in I'. destruct I' as ([r c] & <- & _).
      exists r, c. split; [reflexivity|].
      apply (In_onClick_cellsOf s). exact I.
    + intros (r & c & -> & I). apply In_onClick_cellsOf. exact I.
  - unfold cellsOf. rewrite map_map. cbn [key cellElement].
    apply (distinctb_NoDup String.eqb); [exact String.eqb_eq|].
    vm_compute. reflexivity.
Qed.

Lemma rendered_cells_witness :
  exists cells,
    renderCells mounted = Ret cells /\
    List.length cells = 225%nat /\
    (forall e, In e (map onClick cells) <->
               exists r c, e = CellClick r c /\ in_grid r c = true) /\
    NoDup (map key cells).
Proof. apply rendered_cells. exact grid_shaped_empty. Defined.

Lemma filter_map_swap {A B : Type} (f : B -> bool) (g : A -> B) (l : list A) :
  filter f (map g l) = map g (filter (fun x => f (g x)) l).
Proof.
  induction l as [|x l IH]; simpl; [reflexivity|].
  destruct (f (g x)); simpl; rewrite IH; reflexivity.
Qed.

Lemma filter_none {A : Type} (f : A -> bool) (l : list A) :
  (forall y, In y l -> f y = false) -> filter f l = [].
Proof.
  induction l as [|x l IH]; intros H; simpl; [reflexivity|].
  rewrite (H x (or_introl eq_refl)). apply IH.
  intros y I. apply H. right. exact I.
Qed.

Lemma filter_single {A : Type} (f : A -> bool) (l : list A) (x : A) :
  NoDup l -> In x l -> (forall y, f y = true <-> y = x) ->
  filter f l = [x].
Proof.
  intros N. induction N as [|a t Na Nt IH]; intros I H; [contradiction|].
  simpl. destruct I as [->|I].
  - rewrite (proj2 (H x) eq_refl). f_equal. apply filter_none.
    intros y Iy. destruct (f y) eqn:F; [|reflexivity].
    apply H in F. subst y. contradiction.
  - destruct (f a) eqn:F.
    + apply H in F. subst a. contradiction.
    + exact (IH I H).
Qed.

Lemma stone_class_piece (s : State) (p : PIECE_TYPE) (r c : Z) :
  p <> EMPTY -> piece (cellElement s (Some p) r c) = Some (stone_class p).
Proof. intros N. destruct p; [contradiction| |]; reflexivity. Qed.

Lemma nth_error_seq_map {A : Type} (l : list A) :
  map (fun i => nth_error l i) (seq 0 (List.length l)) = map Some l.
Proof.
  induction l as [|x l IH]; [reflexivity|].
  cbn [List.length seq map nth_error]. f_equal.
  rewrite <- seq_shift, map_map. exact IH.
Qed.

Lemma index_indices {A : Type} (l : list A) :
  List.length l = Z.to_nat BOARD_SIZE -> map (index l) indices = map Some l.
Proof.
  intros H. unfold indices. rewrite <- H, map_map, <- nth_error_seq_map.
  apply map_ext. intros i. unfold index.
  destruct (0 <=? Z.of_nat i) eqn:E; [|apply Z.leb_gt in E; lia].
  rewrite Nat2Z.id. reflexivity.
Qed.

Lemma length_filter_flat_map {A B : Type} (f : B -> bool) (g : A -> list B)
      (l : list A) :
  List.length (filter f (flat_map g l))
  = list_sum (map (fun x => List.length (filter f (g x))) l).
Proof.
  induction l as [|x l IH]; simpl; [reflexivity|].
  rewrite filter_app, length_app, IH. reflexivity.
Qed.

Lemma occupied_grid_cells (b : Board) :
  grid_shaped b ->
  List.length
    (filter (fun rc => negb (strict_eq (cell b (fst rc) (snd rc)) EMPTY))
            grid_cells)
  = occupied b.
Proof.
  intros [Gl Gr]. unfold grid_cells, occupied, count_cells.
  rewrite length_filter_flat_map.
  transitivity
    (list_sum
       (map (fun o : option (list PIECE_TYPE) =>
               List.length
                 (filter (fun v => negb (strict_eq v EMPTY))
                         (map (fun c => match o with
                                        | Some rw => index rw c
                                        | None => None
                                        end) indices)))
            (map (index b) indices))).
  - rewrite map_map. f_equal. apply map_ext. intros r.
    rewrite filter_map_swap, length_map.
    rewrite (filter_map_swap (fun v => negb (strict_eq v EMPTY))), length_map.
    reflexivity.
  - rewrite (index_indices b Gl), map_map. f_equal.
    apply map_ext_in. intros rw I. rewrite Forall_forall in Gr.
    change (fun c => index rw c) with (index rw).
    rewrite (index_indices rw (Gr rw I)), filter_map_swap, length_map.
    reflexivity.
Qed.

(** ** What the view can send *)

(** X21. In every reachable state every event the view can send is handled
    without a TypeError: the rendered cells send clicks on the grid only,
    and the buttons send what their handlers accept. *)
Theorem view_events_return (s : State) (e : event) :
  reachable s -> emits s e -> exists s', dispatch s e = Returned s'.
Proof.
  intros R E. pose proof (reachable_consistent _ R) as (G & L & _).
  destruct e as [row col| | | | |]; simpl; eauto.
  - destruct E as (cells & Hc & I).
    rewrite (renderCells_pure s G) in Hc. apply Ret_inj in Hc. subst cells.
    apply In_onClick_cellsOf, in_grid_spec in I. destruct I as [Hr _].
    exact (click_on_row_returns s row col G Hr).
  - destruct (undo_returns s L) as (s' & H & _). eauto.
Qed.

Lemma view_events_return_witness :
  exists s', dispatch mounted (CellClick 7 7) = Returned s'.
Proof.
  apply view_events_return; [exact reach_mounted|].
  exists (cellsOf mounted). split; [vm_compute; reflexivity|].
  apply In_onClick_cellsOf. reflexivity.
Defined.

(** ** Stones stay, and undo lifts the last one *)

Lemma pause_resume_board (s : State) :
  board (handlePauseResume s) = board s /\
  moveHistory (handlePauseResume s) = moveHistory s.
Proof.
  unfold handlePauseResume.
  destruct (status_eqb (gameStatus s) PLAYING);
    [|destruct (status_eqb (gameStatus s) PAUSED)]; split; reflexivity.
Qed.

(** X22. Whatever the state on a 15x15 board, no event but undo and new
    game takes a stone off the board or changes its colour: a cell that
    holds a stone holds the same stone after the handler. *)
Theorem stones_stay (s s' : State) (e : event) :
  grid_shaped (board s) ->
  committed (dispatch s e) = Some s' ->
  e <> Undo -> e <> NewGame ->
  forall r c q, cell (board s) r c = Some q -> q <> EMPTY ->
                cell (board s') r c = Some q.
Proof.
  intros G H NU NN r c q C Nq.
  destruct e as [row col| | | | |]; simpl in H; try congruence.
  - destruct (status_eqb (gameStatus s) PLAYING) eqn:P.
    2:{ unfold handleCellClick in H. rewrite P in H. simpl in H.
        injection H as <-. exact C. }
    apply status_eqb_eq in P.
    destruct (board_get (board s) row col) as [v|] eqn:E.
    2:{ unfold handleCellClick in H. rewrite P, E in H. simpl in H.
        injection H as <-. exact C. }
    destruct (strict_eq v EMPTY) eqn:V.
    2:{ unfold handleCellClick in H. rewrite P, E, V in H. simpl in H.
        injection H as <-. exact C. }
    apply strict_eq_true in V. subst v.
    destruct (board_get_set _ _ _ _ (currentPlayer s) E) as [nb S].
    rewrite (click_accepted_run s row col nb G P E S) in H.
    assert (cell nb r c = Some q) as X.
    { rewrite (cell_set_other _ _ _ _ _ _ _ S); [exact C|].
      intros Y. injection Y as -> ->.
      rewrite (board_get_cell _ _ _ _ E) in C. congruence. }
    destruct (existsb _ directions); injection H as <-; exact X.
  - injection H as <-.
    rewrite (proj1 (pause_resume_board s)). exact C.
  - injection H as <-. exact C.
  - injection H as <-. exact C.
Qed.

Lemma stones_stay_witness :
  cell (board (after [CellClick 7 7; CellClick 7 8])) 7 7 = Some BLACK.
Proof.
  refine (stones_stay (after [CellClick 7 7])
                      (after [CellClick 7 7; CellClick 7 8])
                      (CellClick 7 8) _ _ _ _ 7 7 BLACK _ _).
  - vm_compute. split; [reflexivity | repeat constructor].
  - vm_compute. reflexivity.
  - discriminate.
  - discriminate.
  - vm_compute. reflexivity.
  - discriminate.
Defined.

(** X23. In every reachable state with a move in its history, undo takes
    exactly the stone of the last move off the board: that cell becomes
    EMPTY and every other cell is as before. *)
Theorem undo_lifts_last_stone (s : State) (m : Move) :
  reachable s -> last_opt (moveHistory s) = Some m ->
  exists s',
    handleUndo s = Returned s' /\
    cell (board s') (row m) (col m) = Some EMPTY /\
    forall r c, (r, c) <> (row m, col m) ->
                cell (board s') r c = cell (board s) r c.
Proof.
  intros R Lo. pose proof (reachable_consistent _ R) as (_ & L & _).
  pose proof (last_opt_Some _ _ Lo) as E. rewrite E in L.
  apply legal_history_snoc_inv in L. destruct L as (b & L & _ & S).
  rewrite (handleUndo_run s _ _ b E (legal_history_replay _ _ L)).
  eexists. split; [reflexivity|]. cbn [board].
  pose proof L as C. apply legal_history_cells with (r := row m) (c := col m) in C.
  split.
  - apply board_set_Stored in S. destruct S as (rw & q & Rw & Q & _).
    assert (cell b (row m) (col m) = Some q) as Cq.
    { unfold cell. rewrite Rw. exact Q. }
    rewrite Cq. f_equal.
    destruct (played_at (removelast (moveHistory s)) (row m) (col m))
      as [p|] eqn:Pl.
    + exfalso.
      pose proof (reachable_consistent _ R) as (_ & L' & _).
      destruct (legal_history_spots _ _ L') as [N _].
      rewrite E, map_app in N. apply NoDup_remove_2 in N.
      rewrite app_nil_r in N. apply N.
      apply played_at_Some in Pl. destruct Pl as (x & Ix & Ex & _).
      apply in_map_iff. exists x. split; [exact Ex | exact Ix].
    + rewrite Cq in C. symmetry in C.
      exact (cell_empty_board _ _ _ C).
  - intros r c N. symmetry. exact (cell_set_other _ _ _ _ _ _ _ S N).
Qed.

Lemma undo_lifts_last_stone_witness :
  exists s',
    handleUndo (after black_five) = Returned s' /\
    cell (board s') 7 7 = Some EMPTY /\
    forall r c, (r, c) <> (7, 7) ->
                cell (board s') r c = cell (board (after black_five)) r c.
Proof.
  apply (undo_lifts_last_stone (after black_five) (mkMove 7 7 BLACK)).
  - apply (run_reachable black_five mounted);
      [exact reach_mounted | vm_compute; reflexivity].
  - vm_compute. reflexivity.
Defined.

(** ** No draw *)

(** X24. No reachable state has the status DRAW, and none shows the modal
    of a draw: [handleCellClick] asks [checkDraw] about the board from
    before the placement, where the cell just played is EMPTY, so its DRAW
    branch is never taken, even by the move that fills the board. *)
Theorem status_never_draw (s : State) :
  reachable s ->
  gameStatus s <> DRAW /\
  forall row col s',
    committed (handleCellClick s row col) = Some s' ->
    gameStatus s' <> DRAW.
Proof.
  intros R. pose proof (reachable_consistent _ R) as K.
  split; [destruct K as (_ & _ & N & _); exact N|].
  intros row col s' H.
  destruct (handleCellClick_consistent _ _ _ _ K H) as (_ & _ & N & _).
  exact N.
Qed.

Lemma status_never_draw_witness :
  gameStatus (after full_game) <> DRAW /\
  forall row col s',
    committed (handleCellClick (after full_game) row col) = Some s' ->
    gameStatus s' <> DRAW.
Proof.
  apply status_never_draw.
  apply (run_reachable full_game mounted);
    [exact reach_mounted | vm_compute; reflexivity].
Defined.


(** ** Undo, cell by cell *)

Lemma replay_cells (h : list Move) :
  forall b nb, replay h b = Stored nb ->
  forall r c, cell nb r c = match played_at h r c with
                            | Some p => Some p
                            | None => cell b r c
                            end.
Proof.
  induction h as [|m h IH]; intros b nb H r c; simpl in H.
  - injection H as <-. reflexivity.
  - destruct (board_set b (row m) (col m) (player m)) as [b'| |] eqn:S;
      try discriminate H.
    rewrite (IH _ _ H r c). cbn [played_at].
    destruct (played_at h r c); [reflexivity|].
    destruct ((row m =? r) && (col m =? c)) eqn:A.
    + apply at_spot in A. injection A as -> ->.
      exact (cell_set_same _ _ _ _ _ S).
    + apply (cell_set_other _ _ _ _ _ _ _ S).
      intros X. apply at_spot in X. congruence.
Qed.

(** C5. With an empty history [handleUndo] only posts the notice that there
    is nothing to undo: board, history, status, current player and last
    move stay.  With a history [h ++ [m]] whose moves are on the grid it
    drops [m] from the history and rebuilds the board from [h] alone: the
    new board is 15x15, each of its cells holds the colour of the last
    move of [h] that went there, and is EMPTY when no move of [h] did.  The
    last move becomes the end of [h] (none when [h] is empty), the turn
    goes to the player of [m], the status becomes PLAYING whatever it was,
    and the modal closes. *)
Theorem undo_spec (s : State) :
  (moveHistory s = [] ->
   handleUndo s = Returned (setErrorMessage s MSG_NOTHING_TO_UNDO) /\
   same_game s (setErrorMessage s MSG_NOTHING_TO_UNDO)) /\
  (forall h m,
      moveHistory s = h ++ [m] -> Forall on_grid h ->
      exists newBoard,
        handleUndo s =
          Returned
            (mkState newBoard (player m) PLAYING h
                     (match last_opt h with
                      | Some last => Some (row last, col last)
                      | None => None
                      end)
                     false (modalContent s) (errorMessage s)) /\
        grid_shaped newBoard /\
        forall r c,
          on_board r c ->
          cell newBoard r c
          = Some (match played_at h r c with
                  | Some p => p
                  | None => EMPTY
                  end)).
Proof.
  split.
  - intros E. unfold handleUndo. rewrite E. simpl.
    split; [reflexivity | apply same_game_notice].
  - intros h m E F.
    destruct (replay_on_grid h empty_board F grid_shaped_empty) as (nb & R & G).
    exists nb. split; [|split; [exact G|]].
    + unfold handleUndo. rewrite E, last_opt_snoc, removelast_last, R.
      reflexivity.
    + intros r c I. rewrite (replay_cells _ _ _ R).
      destruct (played_at h r c); [reflexivity|].
      apply on_board_in_grid in I.
      destruct (cell_on_grid _ _ _ grid_shaped_empty I) as [q Q].
      rewrite Q. f_equal. exact (cell_empty_board _ _ _ Q).
Qed.

Lemma undo_spec_witness :
  gameStatus (after black_five) = BLACK_WIN /\
  exists newBoard,
    handleUndo (after black_five) =
      Returned
        (mkState newBoard BLACK PLAYING
                 (removelast (moveHistory (after black_five)))
                 (Some (0, 3)) false
                 (modalContent (after black_five))
                 (errorMessage (after black_five))) /\
    grid_shaped newBoard /\
    forall r c,
      on_board r c ->
      cell newBoard r c
      = Some (match played_at (removelast (moveHistory (after black_five)))
                              r c with
              | Some p => p
              | None => EMPTY
              end).
Proof.
  split; [vm_compute; reflexivity|].
  apply (proj2 (undo_spec (after black_five))
               (removelast (moveHistory (after black_five)))
               (mkMove 7 7 BLACK)).
  - vm_compute. reflexivity.
  - vm_compute. repeat constructor.
Defined.

(** ** From the first render on *)

Lemma board_get_nil (row col : Z) : board_get [] row col = Throw.
Proof.
  unfold board_get, index.
  destruct (0 <=? row); [destruct (Z.to_nat row)|]; reflexivity.
Qed.

Lemma renderCells_nil (s : State) : board s = [] -> renderCells s = Throw.
Proof.
  intros E. unfold renderCells.
  assert (indices = 0 :: map Z.of_nat (seq 1 14)) as I by reflexivity.
  rewrite I. cbn [renderCells_rows]. rewrite I. cbn [renderCells_cols].
  unfold cellView. rewrite E, board_get_nil. reflexivity.
Qed.

Lemma reachable_live (s : State) : reachable s -> live s.
Proof.
  induction 1 as [|s e s' R IH H].
  - apply (live_step first_render NewGame); [exact live_first | reflexivity].
  - exact (live_step _ _ _ IH H).
Qed.

Lemma uninitialised_step (s s' : State) (e : event) :
  uninitialised s -> committed (dispatch s e) = Some s' ->
  uninitialised s' \/ s' = mounted.
Proof.
  destruct s as [b p g h l sm mc em]. unfold uninitialised. simpl.
  intros (-> & -> & -> & -> & -> & -> & T) H.
  destruct e as [row col| | | | |]; simpl in H.
  - unfold handleCellClick in H. simpl in H.
    destruct g; try discriminate T; simpl in H.
    + rewrite board_get_nil in H. injection H as <-. left. simpl. auto 10.
    + injection H as <-. left. simpl. auto 10.
  - injection H as <-. left. simpl. auto 10.
  - injection H as <-. left.
    destruct g; try discriminate T; simpl; auto 10.
  - injection H as <-. right. reflexivity.
  - injection H as <-. left. simpl. auto 10.
  - injection H as <-. left. simpl. auto 10.
Qed.

Lemma live_cases (s : State) : live s -> uninitialised s \/ reachable s.
Proof.
  induction 1 as [|s e s' L IH H].
  - left. unfold uninitialised. simpl. auto 10.
  - destruct IH as [U|R].
    + destruct (uninitialised_step _ _ _ U H) as [U'| ->];
        [left; exact U' | right; exact reach_mounted].
    + right. exact (reach_step _ _ _ R H).
Qed.

(** X16. In every state the component can be in, from the first render on,
    the board has either no row (before [initializeBoard] has run) or 15
    rows; [handleUndo] returns; and [handleCellClick(row, col)] returns
    exactly when the status is not PLAYING or [row] is a row of the board.
    So a PLAYING game throws on a click whose row is off the board, and
    before the board is initialised it throws on every click. *)
Theorem handlers_return (s : State) :
  live s ->
  (board s = [] \/ List.length (board s) = 15%nat) /\
  (exists s', handleUndo s = Returned s') /\
  forall row col,
    (exists s', handleCellClick s row col = Returned s') <->
    (gameStatus s <> PLAYING \/
     0 <= row < Z.of_nat (List.length (board s))).
Proof.
  intros L. destruct (live_cases _ L) as [U|R].
  - destruct U as (Eb & Eh & _). split; [left; exact Eb|]. split.
    + unfold handleUndo. rewrite Eh. simpl. eauto.
    + intros row col. rewrite Eb. simpl. split.
      * intros (s' & H).
        destruct (status_eqb (gameStatus s) PLAYING) eqn:P.
        -- unfold handleCellClick in H.
           rewrite P, Eb, board_get_nil in H. discriminate H.
        -- left. intros X. rewrite X in P. discriminate P.
      * intros [N|Hr]; [|lia]. unfold handleCellClick.
        destruct (status_eqb (gameStatus s) PLAYING) eqn:P.
        -- apply status_eqb_eq in P. contradiction.
        -- simpl. eauto.
  - pose proof (reachable_consistent _ R) as (G & Lh & _).
    pose proof G as [Gl _]. split; [right; exact Gl|]. split.
    + destruct (undo_returns s Lh) as (s' & H & _). eauto.
    + intros row col. rewrite Gl. exact (click_returns_iff s row col G).
Qed.

Lemma handlers_return_witness :
  (board first_render = [] \/ List.length (board first_render) = 15%nat) /\
  (exists s', handleUndo first_render = Returned s') /\
  forall row col,
    (exists s', handleCellClick first_render row col = Returned s') <->
    (gameStatus first_render <> PLAYING \/
     0 <= row < Z.of_nat (List.length (board first_render))).
Proof. apply handlers_return. exact live_first. Defined.

Lemma last_move_marker_game (s : State) :
  reachable s ->
  exists cells,
    renderCells s = Ret cells /\
    match last_opt (moveHistory s) with
    | None => filter isLastMove cells = []
    | Some m =>
        exists v, filter isLastMove cells = [v] /\
                  onClick v = CellClick (row m) (col m) /\
                  piece v = Some (stone_class (player m))
    end.
Proof.
  intros R. pose proof (reachable_consistent _ R) as (G & L & _).
  pose proof (reachable_settled _ R) as (KL & _).
  exists (cellsOf s). split; [exact (renderCells_pure s G)|].
  unfold cellsOf. rewrite filter_map_swap. cbn [isLastMove cellElement].
  destruct (last_opt (moveHistory s)) as [m|] eqn:Lo; rewrite KL;
    cbn [option_map spot].
  - apply last_opt_Some in Lo. rewrite Lo in L.
    apply legal_history_snoc_inv in L. destruct L as (b & _ & T & S).
    pose proof (cell_set_same _ _ _ _ _ S) as C.
    rewrite (filter_single _ _ (row m, col m) NoDup_grid_cells).
    + eexists. split; [reflexivity|]. cbn [map fst snd]. rewrite C.
      split; [reflexivity|]. apply stone_class_piece.
      rewrite T. apply turn_not_empty.
    + apply In_grid_cells. exact (cell_in_grid _ _ _ _ G C).
    + intros [r c]. cbn [fst snd].
      rewrite andb_true_iff, !Z.eqb_eq. split.
      * intros [-> ->]. reflexivity.
      * intros H. injection H as -> ->. auto.
  - rewrite filter_none; [reflexivity|]. reflexivity.
Qed.

(** X19. The first render, whose board is still the empty array, throws in
    [renderCells].  In every later state of the component, once the board
    is initialised, the rendered board carries the last-move marker on
    exactly one cell when the history is not empty: the cell of the last
    move, which is drawn with the stone of the player who made it.  With
    an empty history no cell carries the marker. *)
Theorem last_move_marker (s : State) :
  live s ->
  (board s = [] -> renderCells s = Throw) /\
  (board s <> [] ->
   exists cells,
     renderCells s = Ret cells /\
     match last_opt (moveHistory s) with
     | None => filter isLastMove cells = []
     | Some m =>
         exists v, filter isLastMove cells = [v] /\
                   onClick v = CellClick (row m) (col m) /\
                   piece v = Some (stone_class (player m))
     end).
Proof.
  intros L. split; [exact (renderCells_nil s)|]. intros N.
  destruct (live_cases _ L) as [(Eb & _)|R]; [contradiction|].
  exact (last_move_marker_game s R).
Qed.

Lemma last_move_marker_witness :
  renderCells first_render = Throw /\
  exists cells,
    renderCells (after black_five) = Ret cells /\
    match last_opt (moveHistory (after black_five)) with
    | None => filter isLastMove cells = []
    | Some m =>
        exists v, filter isLastMove cells = [v] /\
                  onClick v = CellClick (row m) (col m) /\
                  piece v = Some (stone_class (player m))
    end.
Proof.
  split.
  - apply (proj1 (last_move_marker first_render live_first)). reflexivity.
  - refine (proj2 (last_move_marker (after black_five) _) _).
    + apply reachable_live. apply (run_reachable black_five mounted);
        [exact reach_mounted | vm_compute; reflexivity].
    + vm_compute. discriminate.
Defined.

Lemma stones_drawn_game (s : State) :
  reachable s ->
  exists cells,
    renderCells s = Ret cells /\
    List.length (filter hasPiece cells) = List.length (moveHistory s).
Proof.
  intros R. pose proof (reachable_consistent _ R) as (G & L & _).
  exists (cellsOf s). split; [exact (renderCells_pure s G)|].
  rewrite <- (proj1 (legal_history_count _ _ L)), <- (occupied_grid_cells _ G).
  unfold cellsOf. rewrite filter_map_swap, length_map. f_equal.
  apply filter_ext. intros [r c]. unfold hasPiece. cbn [piece cellElement fst snd].
  destruct (negb (strict_eq (cell (board s) r c) EMPTY)); reflexivity.
Qed.

(** X20. In every state of the component whose board is initialised (every
    state but those of the first render, where [renderCells] throws), the
    rendered board draws as many stones as the history has moves. *)
Theorem stones_drawn (s : State) :
  live s -> board s <> [] ->
  exists cells,
    renderCells s = Ret cells /\
    List.length (filter hasPiece cells) = List.length (moveHistory s).
Proof.
  intros L N. destruct (live_cases _ L) as [(Eb & _)|R]; [contradiction|].
  exact (stones_drawn_game s R).
Qed.

Lemma stones_drawn_witness :
  exists cells,
    renderCells (after black_five) = Ret cells /\
    List.length (filter hasPiece cells)
    = List.length (moveHistory (after black_five)).
Proof.
  refine (stones_drawn (after black_five) _ _).
  - apply reachable_live. apply (run_reachable black_five mounted);
      [exact reach_mounted | vm_compute; reflexivity].
  - vm_compute. discriminate.
Defined.
